(** * Retrieval core of the documentation RAG demo (rag-demo/rag.py)

    A shallow embedding of the chunker ([DocumentProcessor]), the hybrid
    ranker ([VectorStore.search], [combine_search_results], [hybrid_search],
    [RAGSystem.filter_and_rank_results], [retrieve_context]) and the
    response cache ([RAGSystem.query], [cache_response], [is_cache_valid],
    [index_documentation]), with the properties of the specification
    stated and settled against them.

    Conventions.
    - Python [str] is [string]; every character is read as a code point
      below 256.
    - Python [int] is [Z]; [float] is the primitive binary64 [float].
    - A [dict] whose iteration order is observed is an association list in
      insertion order ([odict]); the response cache, whose order is never
      observed, is a [gmap].
    - An operation that may raise returns [Result]; the external
      collaborators (tokenizer, hash, embedding provider, FAISS index,
      collection, keyword search, answer generator) are parameters of the
      functions that call them, and every clock reading is an argument. *)

From Stdlib Require Import ZArith List Floats Permutation Sorted Bool.
From Stdlib Require Import String Ascii.
From stdpp Require Import base tactics option list gmap strings pretty.

(** A decimal literal such as [0.7] denotes the nearest binary64 value, as
    it does in Python. *)
#[local] Set Warnings "-inexact-float".

Import ListNotations.
Local Open Scope string_scope.
Local Open Scope list_scope.
Local Open Scope Z_scope.

(** ** Python string operations *)

Module PyStr.

(** The newline character. *)
Definition nl : string := String (ascii_of_nat 10) EmptyString.

(** [str.isspace] on one code point below 256. *)
Definition is_space (c : ascii) : bool :=
  let n := nat_of_ascii c in
  ((9 <=? n)%nat && (n <=? 13)%nat)
  || ((28 <=? n)%nat && (n <=? 32)%nat)
  || (n =? 133)%nat || (n =? 160)%nat.

Fixpoint lstrip (s : string) : string :=
  match s with
  | EmptyString => EmptyString
  | String c r => if is_space c then lstrip r else s
  end.

Fixpoint rstrip (s : string) : string :=
  match s with
  | EmptyString => EmptyString
  | String c r =>
      match rstrip r with
      | EmptyString => if is_space c then EmptyString else String c EmptyString
      | r' => String c r'
      end
  end.

(** [s.strip()] *)
Definition strip (s : string) : string := rstrip (lstrip s).

(** [sep.join(parts)] *)
Fixpoint join (sep : string) (parts : list string) : string :=
  match parts with
  | [] => EmptyString
  | [p] => p
  | p :: rest => p +:+ sep +:+ join sep rest
  end.

(** [str.lower] on one code point below 256: A-Z and the Latin-1
    capitals (192-222 except the multiplication sign 215) move up by 32. *)
Definition lower_char (c : ascii) : ascii :=
  let n := nat_of_ascii c in
  if ((65 <=? n)%nat && (n <=? 90)%nat)
     || ((192 <=? n)%nat && (n <=? 222)%nat && negb (n =? 215)%nat)
  then ascii_of_nat (n + 32) else c.

Fixpoint lower (s : string) : string :=
  match s with
  | EmptyString => EmptyString
  | String c r => String (lower_char c) (lower r)
  end.

(** [sub in s] *)
Fixpoint contains (sub s : string) : bool :=
  String.prefix sub s
  || match s with
     | EmptyString => false
     | String _ r => contains sub r
     end.

(** [s.replace(old, new)] for a non-empty [old]: non-overlapping
    occurrences, leftmost first. *)
Fixpoint replace_fuel (fuel : nat) (old new s : string) : string :=
  match fuel with
  | O => s
  | S fuel' =>
      match s with
      | EmptyString => EmptyString
      | String c r =>
          if String.prefix old s
          then new +:+ replace_fuel fuel' old new
                         (String.substring (String.length old)
                            (String.length s - String.length old) s)
          else String c (replace_fuel fuel' old new r)
      end
  end.

Definition replace (old new s : string) : string :=
  replace_fuel (String.length s) old new s.

(** [any(keyword in s for keyword in keywords)] *)
Definition any_in (keywords : list string) (s : string) : bool :=
  existsb (fun keyword => contains keyword s) keywords.

(** [f"{n:03d}"] for a non-negative [n]. *)
Definition format_03d (n : nat) : string :=
  let digits := pretty n in
  match String.length digits with
  | 1%nat => "00" +:+ digits
  | 2%nat => "0" +:+ digits
  | _ => digits
  end.

(** [l[:k]] *)
Definition slice_to {A} (k : Z) (l : list A) : list A :=
  if 0 <=? k then firstn (Z.to_nat k) l
  else firstn (length l - Z.to_nat (- k)) l.

End PyStr.

(** ** Data model *)

(** The [CONFIG] options the retrieval core reads. *)
Record Config := {
  chunk_size : Z;
  chunk_overlap : Z;
  top_k_documents : Z;
  similarity_threshold : float;
  cache_ttl_hours : Z
}.

Definition CONFIG : Config := {|
  chunk_size := 1000;
  chunk_overlap := 200;
  top_k_documents := 10;
  similarity_threshold := 0.7%float;
  cache_ttl_hours := 24
|}.

(** A structured content block, as [extract_structured_content] builds
    them.  [language] is [None] when the key is absent, [Some None] when it
    holds Python's [None], [Some (Some l)] when it holds a string. *)
Record Block := {
  type : string;
  b_content : string;
  language : option (option string);
  b_section : option string;
  level : option Z
}.

(** The [metadata] dict of a chunk: the document's front matter with
    [token_count] and [content_types] added. *)
Record ChunkMetadata := {
  front_matter : gmap string string;
  token_count : Z;
  content_types : list string
}.

(** [DocumentChunk]; [embedding] and [last_updated] (a wall-clock reading)
    are left out, nothing below reads them. *)
Record DocumentChunk := {
  id : string;
  content : string;
  source_file : string;
  title : string;
  section : option string;
  url : option string;
  metadata : ChunkMetadata
}.

(** One documentation file after parsing: what [process_file] hands to
    [create_contextual_chunks].  [relative_path] is
    [str(file_path.relative_to(config['docs_path']))]: the file is taken to
    lie under the configured documentation directory. *)
Record Document := {
  file_path : string;
  relative_path : string;
  doc_title : string;
  doc_metadata : gmap string string;
  content_blocks : list Block
}.

(** ** DocumentProcessor *)

Section DocumentProcessor.

Variable config : Config.
(** [self.encoding.encode]: the injected tokenizer. *)
Variable encode : string -> list Z.
(** [hashlib.md5(s.encode()).hexdigest()] *)
Variable md5_hexdigest : string -> string.

(** [len(self.encoding.encode(text))] *)
Definition count_tokens (text : string) : Z :=
  Z.of_nat (length (encode text)).

(** [sum(len(self.encoding.encode(b['content'])) for b in blocks)] *)
Definition sum_tokens (blocks : list Block) : Z :=
  fold_right (fun b acc => count_tokens (b_content b) + acc) 0 blocks.

Definition format_block (block : Block) : string :=
  if String.eqb (type block) "heading" then
    PyStr.nl +:+ "## " +:+ b_content block +:+ PyStr.nl
  else if String.eqb (type block) "code" then
    let lang := match language block with
                | None => ""
                | Some None => "None"
                | Some (Some l) => l
                end in
    PyStr.nl +:+ "```" +:+ lang +:+ PyStr.nl +:+ b_content block
      +:+ PyStr.nl +:+ "```" +:+ PyStr.nl
  else if String.eqb (type block) "list" then
    PyStr.nl +:+ b_content block +:+ PyStr.nl
  else if String.eqb (type block) "table" then
    PyStr.nl +:+ b_content block +:+ PyStr.nl
  else b_content block.

Definition combine_blocks (blocks : list Block) : string :=
  PyStr.strip (PyStr.join PyStr.nl (map format_block blocks)).

(** The loop of [get_overlap_blocks] over [reversed(blocks)]. *)
Fixpoint overlap_loop (reversed_blocks : list Block) (overlap_tokens : Z)
    (overlap_blocks : list Block) : list Block :=
  match reversed_blocks with
  | [] => overlap_blocks
  | block :: rest =>
      let block_tokens := count_tokens (b_content block) in
      if overlap_tokens + block_tokens <=? chunk_overlap config
      then overlap_loop rest (overlap_tokens + block_tokens)
             (block :: overlap_blocks)
      else overlap_blocks
  end.

Definition get_overlap_blocks (blocks : list Block) : list Block :=
  match blocks with
  | [] => []
  | _ => overlap_loop (rev blocks) 0 []
  end.

Definition analyze_content_types (content : string) : list string :=
  let lowered := PyStr.lower content in
  (if PyStr.contains "```" content then ["code"] else [])
  ++ (if PyStr.any_in ["api"; "endpoint"; "/api/"] lowered
      then ["api"] else [])
  ++ (if PyStr.any_in ["install"; "setup"; "configure"] lowered
      then ["setup"] else [])
  ++ (if PyStr.any_in ["example"; "tutorial"; "how to"] lowered
      then ["tutorial"] else [])
  ++ (if PyStr.any_in ["error"; "troubleshoot"; "problem"] lowered
      then ["troubleshooting"] else []).

(** Python truthiness of an optional string. *)
Definition truthy (s : option string) : bool :=
  match s with
  | Some (String _ _) => true
  | _ => false
  end.

Definition create_chunk (chunk_id content : string) (doc : Document)
    (section : option string) : DocumentChunk :=
  let url :=
    if truthy (doc_metadata doc !! "url") then doc_metadata doc !! "url"
    else
      let url_path :=
        PyStr.replace ".mdx" ""
          (PyStr.replace ".md" ""
             (PyStr.replace "\" "/" (relative_path doc))) in
      let url := "https://fusionauth.io/docs/" +:+ url_path in
      match section with
      | Some (String c r) =>
          let anchor :=
            PyStr.replace "?" ""
              (PyStr.replace "&" ""
                 (PyStr.replace " " "-" (PyStr.lower (String c r)))) in
          Some (url +:+ "#" +:+ anchor)
      | _ => Some url
      end in
  {| id := chunk_id;
     content := content;
     source_file := file_path doc;
     title := doc_title doc;
     section := section;
     url := url;
     metadata := {| front_matter := doc_metadata doc;
                    token_count := count_tokens content;
                    content_types := analyze_content_types content |} |}.

(** The local variables of the loop of [create_contextual_chunks]. *)
Record ChunkerState := {
  chunks : list DocumentChunk;
  current_chunk : list Block;
  current_size : Z;
  current_section : option string
}.

Definition is_empty {A} (l : list A) : bool :=
  match l with [] => true | _ => false end.

(** [f"{chunk_id_base}_{len(chunks):03d}"] *)
Definition chunk_id (doc : Document) (n : nat) : string :=
  String.substring 0 8 (md5_hexdigest (file_path doc))
    +:+ "_" +:+ PyStr.format_03d n.

(** One iteration of the loop over [content_blocks]. *)
Definition chunk_step (doc : Document) (st : ChunkerState) (block : Block)
    : ChunkerState :=
  let block_tokens := count_tokens (b_content block) in
  let current_section :=
    if String.eqb (type block) "heading" then Some (b_content block)
    else current_section st in
  if (current_size st + block_tokens >? chunk_size config)
     && negb (is_empty (current_chunk st))
  then
    let chunk_content := combine_blocks (current_chunk st) in
    let chunk := create_chunk (chunk_id doc (length (chunks st)))
                   chunk_content doc current_section in
    let overlap_blocks := get_overlap_blocks (current_chunk st) in
    let current_chunk := overlap_blocks ++ [block] in
    {| chunks := chunks st ++ [chunk];
       current_chunk := current_chunk;
       current_size := sum_tokens current_chunk;
       current_section := current_section |}
  else
    {| chunks := chunks st;
       current_chunk := current_chunk st ++ [block];
       current_size := current_size st + block_tokens;
       current_section := current_section |}.

Definition chunker_init : ChunkerState :=
  {| chunks := []; current_chunk := []; current_size := 0;
     current_section := None |}.

Definition create_contextual_chunks (doc : Document) : list DocumentChunk :=
  let st := fold_left (chunk_step doc) (content_blocks doc) chunker_init in
  if negb (is_empty (current_chunk st)) then
    let chunk_content := combine_blocks (current_chunk st) in
    let chunk := create_chunk (chunk_id doc (length (chunks st)))
                   chunk_content doc (current_section st) in
    chunks st ++ [chunk]
  else chunks st.

(** The block sequences behind the emitted chunks: the same loop, keeping
    each closed buffer instead of the chunk built from it. *)
Record BufferState := {
  closed : list (list Block);
  buffer : list Block;
  buffer_size : Z
}.

Definition buffer_step (st : BufferState) (block : Block) : BufferState :=
  let block_tokens := count_tokens (b_content block) in
  if (buffer_size st + block_tokens >? chunk_size config)
     && negb (is_empty (buffer st))
  then
    let next := get_overlap_blocks (buffer st) ++ [block] in
    {| closed := closed st ++ [buffer st];
       buffer := next;
       buffer_size := sum_tokens next |}
  else
    {| closed := closed st;
       buffer := buffer st ++ [block];
       buffer_size := buffer_size st + block_tokens |}.

Definition buffer_init : BufferState :=
  {| closed := []; buffer := []; buffer_size := 0 |}.

Definition flush (st : BufferState) : list (list Block) :=
  if negb (is_empty (buffer st)) then closed st ++ [buffer st]
  else closed st.

Definition chunk_buffers (blocks : list Block) : list (list Block) :=
  flush (fold_left buffer_step blocks buffer_init).

(** The overlap that opens the [k]-th buffer: what [get_overlap_blocks]
    selects from the buffer before it, nothing for the first. *)
Definition prev_overlap (buffers : list (list Block)) (k : nat) : list Block :=
  match k with
  | O => []
  | S j => match buffers !! j with
           | Some previous => get_overlap_blocks previous
           | None => []
           end
  end.

(** The closed buffers followed by the pending one. *)
Definition all_buffers (st : BufferState) : list (list Block) :=
  closed st ++ [buffer st].

(** What holds of the loop state after any number of iterations. *)
Record buffer_inv (st : BufferState) : Prop := {
  inv_size : buffer_size st = sum_tokens (buffer st);
  inv_empty : buffer st = [] -> closed st = [];
  inv_closed : Forall (fun b => b <> []) (closed st);
  inv_link : forall k a b,
    closed st !! k = Some a -> all_buffers st !! S k = Some b ->
    exists rest, rest <> [] /\ b = get_overlap_blocks a ++ rest;
  inv_bound : forall k bk,
    all_buffers st !! k = Some bk ->
    bk = [] \/ sum_tokens bk <= chunk_size config
    \/ exists b, bk = prev_overlap (all_buffers st) k ++ [b]
}.

End DocumentProcessor.

(** ** Search results and exceptions *)

Record SearchResult := {
  chunk : DocumentChunk;
  score : float;
  relevance_type : string
}.

Definition set_score (r : SearchResult) (s : float) : SearchResult :=
  {| chunk := chunk r; score := s; relevance_type := relevance_type r |}.

Definition set_relevance_type (r : SearchResult) (t : string) : SearchResult :=
  {| chunk := chunk r; score := score r; relevance_type := t |}.

(** The outcome of a call that may raise; [Raise] carries [str(e)]. *)
Inductive Result (A : Type) : Type :=
| Ok (a : A)
| Raise (message : string).
Arguments Ok {A} a.
Arguments Raise {A} message.

(** Sequencing: an exception raised by the first call skips the rest. *)
#[global] Instance result_bind : MBind Result := fun A B k r =>
  match r with
  | Ok a => k a
  | Raise e => Raise e
  end.

(** ** Ordered dictionaries and stable sorting *)

(** A Python [dict] read in insertion order. *)
Definition odict (V : Type) : Type := list (string * V).

Section ODict.
Context {V : Type}.

(** [d[k]] *)
Fixpoint od_get (k : string) (d : odict V) : option V :=
  match d with
  | [] => None
  | (k', v) :: rest => if String.eqb k k' then Some v else od_get k rest
  end.

(** [d[k] = v]: a known key keeps its position, a new one goes last. *)
Fixpoint od_set (k : string) (v : V) (d : odict V) : odict V :=
  match d with
  | [] => [(k, v)]
  | (k', v') :: rest =>
      if String.eqb k k' then (k, v) :: rest
      else (k', v') :: od_set k v rest
  end.

(** [d.keys()] *)
Definition od_keys (d : odict V) : list string := map fst d.
End ODict.

Section Sorting.
Context {A : Type}.
Variable key : A -> float.

Fixpoint insert_desc (x : A) (l : list A) : list A :=
  match l with
  | [] => [x]
  | y :: rest =>
      if PrimFloat.ltb (key x) (key y) then y :: insert_desc x rest
      else x :: l
  end.

(** [sorted(l, key=key, reverse=True)]: the stable sort into descending
    key order.  It is what [list.sort] returns whenever the keys are
    totally ordered, that is, when none of them is a NaN. *)
Definition sorted_desc (l : list A) : list A :=
  fold_right insert_desc [] l.
End Sorting.

(** ** Python lists and [repr] *)

(** [l[idx]]: a negative index counts from the end. *)
Definition list_getitem {A : Type} (l : list A) (idx : Z) : Result A :=
  let n := Z.of_nat (length l) in
  let pos := if idx <? 0 then idx + n else idx in
  if (0 <=? pos) && (pos <? n) then
    match l !! Z.to_nat pos with
    | Some x => Ok x
    | None => Raise "list index out of range"
    end
  else Raise "list index out of range".

(** [l.index(x)]: the first position of [x], [None] where Python raises
    [ValueError]. *)
Fixpoint list_index {A : Type} (eqb : A -> A -> bool) (x : A) (l : list A)
    : option nat :=
  match l with
  | [] => None
  | y :: rest =>
      if eqb y x then Some O
      else match list_index eqb x rest with
           | Some n => Some (S n)
           | None => None
           end
  end.

Module PyRepr.

Definition quote : ascii := ascii_of_nat 39.
Definition double_quote : ascii := ascii_of_nat 34.
Definition backslash : ascii := ascii_of_nat 92.

(** [str.isprintable] on one code point below 256. *)
Definition printable (c : ascii) : bool :=
  let n := nat_of_ascii c in
  ((32 <=? n)%nat && (n <=? 126)%nat)
  || ((161 <=? n)%nat && negb (n =? 173)%nat).

Definition hex_digit (n : nat) : ascii :=
  ascii_of_nat (if (n <? 10)%nat then 48 + n else 87 + n).

Fixpoint has_char (c : ascii) (s : string) : bool :=
  match s with
  | EmptyString => false
  | String x r => Ascii.eqb x c || has_char c r
  end.

(** The escape of one character inside the quotes [q]. *)
Definition escape (q c : ascii) : string :=
  let n := nat_of_ascii c in
  if Ascii.eqb c q || Ascii.eqb c backslash then String backslash (String c "")
  else if (n =? 9)%nat then String backslash "t"
  else if (n =? 10)%nat then String backslash "n"
  else if (n =? 13)%nat then String backslash "r"
  else if printable c then String c ""
  else String backslash
         (String "x" (String (hex_digit (n / 16)) (String (hex_digit (n mod 16)) ""))).

Fixpoint escape_all (q : ascii) (s : string) : string :=
  match s with
  | EmptyString => EmptyString
  | String c r => escape q c +:+ escape_all q r
  end.

(** [repr(s)] for a [str]: single quotes, unless the text holds a single
    quote and no double quote. *)
Definition repr (s : string) : string :=
  let q := if has_char quote s && negb (has_char double_quote s)
           then double_quote else quote in
  String q (escape_all q s +:+ String q "").

End PyRepr.

(** ** VectorStore *)

(** The [filters] dict: the two keys [apply_filters] reads. *)
Record Filters := {
  filter_content_types : option (list string);
  filter_source_file : option string
}.

Definition no_filters : Filters :=
  {| filter_content_types := None; filter_source_file := None |}.

(** [x in l] for a list of strings. *)
Definition mem (x : string) (l : list string) : bool :=
  existsb (String.eqb x) l.

(** One entry of what [self.collection.get] returns, the three parallel
    lists [ids], [documents] and [metadatas] read side by side.  The
    metadata is the dict that [index_documents] stores with a chunk;
    [row_metadata] is its [metadata] entry as [json.loads] reads it. *)
Record Row := {
  row_id : string;
  row_document : string;
  row_source_file : string;
  row_title : string;
  row_section : string;
  row_url : string;
  row_metadata : ChunkMetadata
}.

(** [value if value else None] on a stored string. *)
Definition nonempty (value : string) : option string :=
  match value with
  | EmptyString => None
  | _ => Some value
  end.

(** The [DocumentChunk] that [search] builds from a row. *)
Definition chunk_of_row (row : Row) : DocumentChunk :=
  {| id := row_id row;
     content := row_document row;
     source_file := row_source_file row;
     title := row_title row;
     section := nonempty (row_section row);
     url := nonempty (row_url row);
     metadata := row_metadata row |}.

(** [apply_filters]; [metadata] is the metadata of a row. *)
Definition apply_filters (metadata : Row) (filters : Filters) : bool :=
  match filter_content_types filters with
  | Some value =>
      existsb (fun ct => mem ct (content_types (row_metadata metadata))) value
  | None => true
  end
  && match filter_source_file filters with
     | Some value => PyStr.contains value (row_source_file metadata)
     | None => true
     end.

(** One iteration of the loop over [semantic_results]; the state is
    [(combined_scores, all_results)]. *)
Definition add_semantic (semantic_weight : float)
    (st : odict float * odict SearchResult) (result : SearchResult)
    : odict float * odict SearchResult :=
  let doc_id := id (chunk result) in
  (od_set doc_id (semantic_weight * score result)%float (fst st),
   od_set doc_id result (snd st)).

(** One iteration of the loop over [keyword_results]. *)
Definition add_keyword (keyword_weight : float)
    (st : odict float * odict SearchResult) (result : SearchResult)
    : odict float * odict SearchResult :=
  let doc_id := id (chunk result) in
  match od_get doc_id (fst st) with
  | Some combined =>
      (od_set doc_id (combined + keyword_weight * score result)%float (fst st),
       match od_get doc_id (snd st) with
       | Some r => od_set doc_id (set_relevance_type r "hybrid") (snd st)
       | None => snd st
       end)
  | None =>
      (od_set doc_id (keyword_weight * score result)%float (fst st),
       od_set doc_id (set_relevance_type result "keyword") (snd st))
  end.

(** [combined_scores[x]], the sort key; the identifiers sorted are the keys
    of the dictionary, so the default is never used. *)
Definition score_of (combined_scores : odict float) (x : string) : float :=
  match od_get x combined_scores with
  | Some s => s
  | None => 0%float
  end.

(** The two loops of [combine_search_results]: the dictionaries
    [(combined_scores, all_results)] they leave. *)
Definition fuse_scores (semantic_results keyword_results : list SearchResult)
    (semantic_weight keyword_weight : float)
    : odict float * odict SearchResult :=
  let st := fold_left (add_semantic semantic_weight) semantic_results ([], []) in
  fold_left (add_keyword keyword_weight) keyword_results st.

Definition combine_search_results (semantic_results keyword_results : list SearchResult)
    (semantic_weight keyword_weight : float) : list SearchResult :=
  let st := fuse_scores semantic_results keyword_results
              semantic_weight keyword_weight in
  let combined_scores := fst st in
  let all_results := snd st in
  let sorted_ids := sorted_desc (score_of combined_scores) (od_keys combined_scores) in
  flat_map (fun doc_id =>
              match od_get doc_id all_results with
              | Some result => [set_score result (score_of combined_scores doc_id)]
              | None => []
              end) sorted_ids.

(** The result carrying a given chunk id, if any. *)
Definition find_result (doc_id : string) (results : list SearchResult)
    : option SearchResult :=
  List.find (fun r => String.eqb (id (chunk r)) doc_id) results.

(** The chunk ids of a result list, in order. *)
Definition ids (results : list SearchResult) : list string :=
  map (fun r => id (chunk r)) results.

(** The two dictionaries stay aligned: same keys in the same order, and
    each result filed under its own chunk id. *)
Definition aligned (st : odict float * odict SearchResult) : Prop :=
  od_keys (fst st) = od_keys (snd st)
  /\ forall k r, od_get k (snd st) = Some r -> id (chunk r) = k.

(** A position for every binary64 value other than NaN, in an order that
    matches [<] on floats: sign and kind first, then exponent, then
    mantissa. *)
Definition sf_key (f : spec_float) : Z * Z * Z :=
  match f with
  | S754_zero _ => (0, 0, 0)
  | S754_infinity true => (-2, 0, 0)
  | S754_infinity false => (2, 0, 0)
  | S754_finite false m e => (1, e, Z.pos m)
  | S754_finite true m e => (-1, - e, - Z.pos m)
  | S754_nan => (0, 0, 0)
  end.

Definition lex_lt (a b : Z * Z * Z) : Prop :=
  a.1.1 < b.1.1
  \/ (a.1.1 = b.1.1 /\ (a.1.2 < b.1.2 \/ (a.1.2 = b.1.2 /\ a.2 < b.2))).

(** What [search] reads the state of a [VectorStore] through; the state
    [Store] stands for the FAISS index, [chunk_ids] and the collection. *)
Record IndexOps (Store Embedding : Type) := {
  (** [self.faiss_index.search(query_embedding, k)]: the arrays
      [scores[0]] and [indices[0]], of one length, read side by side as a
      list of pairs. *)
  faiss_search : Store -> Embedding -> Z -> Result (list (float * Z));
  (** [self.chunk_ids] *)
  chunk_ids : Store -> list string;
  (** [self.collection.get(ids=candidate_ids, ...)] *)
  collection_get : Store -> list string -> Result (list Row)
}.
Arguments faiss_search {Store Embedding} _ _ _ _.
Arguments chunk_ids {Store Embedding} _ _.
Arguments collection_get {Store Embedding} _ _ _.

(** [[self.chunk_ids[idx] for idx in indices[0] if idx < len(self.chunk_ids)]] *)
Fixpoint select_ids (ids_of_chunks : list string) (indices : list Z)
    : Result (list string) :=
  match indices with
  | [] => Ok []
  | idx :: rest =>
      if idx <? Z.of_nat (length ids_of_chunks) then
        doc_id ← list_getitem ids_of_chunks idx;
        selected ← select_ids ids_of_chunks rest;
        Ok (doc_id :: selected)
      else select_ids ids_of_chunks rest
  end.

(** [scores[0][indices[0].tolist().index(candidate_ids.index(doc_id))]]:
    the score beside the first row number that equals the position of
    [doc_id] among the candidate ids. *)
Definition lookup_score (neighbours : list (float * Z)) (candidate_ids : list string)
    (doc_id : string) : Result float :=
  match list_index String.eqb doc_id candidate_ids with
  | None => Raise (PyRepr.repr doc_id +:+ " is not in list")
  | Some position =>
      match List.find (fun neighbour => Z.eqb (snd neighbour) (Z.of_nat position))
              neighbours with
      | Some neighbour => Ok (fst neighbour)
      | None => Raise (pretty (Z.of_nat position) +:+ " is not in list")
      end
  end.

(** The loop of [search] over the rows of [chroma_results]: a row the
    filters reject is skipped before its score is looked up. *)
Fixpoint collect_results (neighbours : list (float * Z)) (candidate_ids : list string)
    (filters : option Filters) (rows : list Row) : Result (list SearchResult) :=
  match rows with
  | [] => Ok []
  | row :: rest =>
      if match filters with
         | Some f => negb (apply_filters row f)
         | None => false
         end
      then collect_results neighbours candidate_ids filters rest
      else
        s ← lookup_score neighbours candidate_ids (row_id row);
        results ← collect_results neighbours candidate_ids filters rest;
        Ok ({| chunk := chunk_of_row row; score := s;
               relevance_type := "semantic" |} :: results)
  end.

Section VectorStore.

Variable Store : Type.
Variable Embedding : Type.
(** [self.embeddings_model.encode([query])], normalised. *)
Variable embed : string -> Result Embedding.
Variable index : IndexOps Store Embedding.
(** [keyword_search], the TF-IDF ranking of the whole collection. *)
Variable keyword_search : Store -> string -> Z -> Result (list SearchResult).

Definition search (store : Store) (query : string) (top_k : Z)
    (filters : option Filters) : Result (list SearchResult) :=
  query_embedding ← embed query;
  neighbours ← faiss_search index store query_embedding (top_k * 2);
  candidate_ids ← select_ids (chunk_ids index store) (map snd neighbours);
  chroma_results ← collection_get index store candidate_ids;
  results ← collect_results neighbours candidate_ids filters chroma_results;
  Ok (PyStr.slice_to top_k (sorted_desc score results)).

Definition hybrid_search (store : Store) (query : string) (top_k : Z)
    (semantic_weight keyword_weight : float) : Result (list SearchResult) :=
  semantic_results ← search store query (top_k * 2) None;
  keyword_results ← keyword_search store query (top_k * 2);
  let combined_results :=
    combine_search_results semantic_results keyword_results
      semantic_weight keyword_weight in
  Ok (PyStr.slice_to top_k combined_results).

End VectorStore.

(** ** RAGSystem *)

(** One entry of [sources] in a response. *)
Record Source := {
  src_title : string;
  src_section : option string;
  src_url : option string;
  relevance_score : float;
  src_relevance_type : string
}.

(** [RAGResponse], without its free-form [metadata]. *)
Record RAGResponse := {
  query_text : string;
  answer : string;
  sources : list Source;
  confidence : float;
  response_time : float;
  tokens_used : Z
}.

Definition set_response_time (r : RAGResponse) (t : float) : RAGResponse :=
  {| query_text := query_text r; answer := answer r; sources := sources r;
     confidence := confidence r; response_time := t;
     tokens_used := tokens_used r |}.

(** A value of [self.cache]; [timestamp] is a [datetime], counted in
    microseconds. *)
Record CacheItem := {
  response : RAGResponse;
  timestamp : Z
}.

Record Metrics := {
  queries_processed : Z;
  cache_hits : Z;
  avg_response_time : float;
  total_tokens_used : Z
}.

(** What [query] returns: a response, or with [stream_response] the
    generator made from the question and the retrieved results. *)
Inductive QueryResult :=
| Response (r : RAGResponse)
| Streaming (question : string) (search_results : list SearchResult).

(** [timedelta(hours=h)] in microseconds. *)
Definition timedelta_hours (h : Z) : Z := h * 3600 * 1000000.

(** [is_cache_valid], with the reading [now] of [datetime.now()]. *)
Definition is_cache_valid (config : Config) (cached_item : CacheItem) (now : Z)
    : bool :=
  let age := now - timestamp cached_item in
  age <? timedelta_hours (cache_ttl_hours config).

Definition determine_context_type (question : string) : string :=
  let question_lower := PyStr.lower question in
  if PyStr.any_in ["api"; "endpoint"; "curl"; "request"; "response"] question_lower
  then "api"
  else if PyStr.any_in ["install"; "setup"; "configure"; "deploy"] question_lower
  then "setup"
  else if PyStr.any_in ["code"; "example"; "implement"; "integrate"] question_lower
  then "tutorial"
  else if PyStr.any_in ["error"; "problem"; "issue"; "troubleshoot"] question_lower
  then "troubleshooting"
  else "general".

(** The first statement of [retrieve_context]: [auto] is replaced by the
    type read off the question. *)
Definition resolve_context_type (question context_type : string) : string :=
  if String.eqb context_type "auto" then determine_context_type question
  else context_type.

Definition create_search_filters (question context_type : string) : Filters :=
  if String.eqb context_type "api" then
    {| filter_content_types := Some ["api"]; filter_source_file := None |}
  else if String.eqb context_type "setup" then
    {| filter_content_types := Some ["setup"]; filter_source_file := None |}
  else if String.eqb context_type "tutorial" then
    {| filter_content_types := Some ["tutorial"; "code"];
       filter_source_file := None |}
  else if String.eqb context_type "troubleshooting" then
    {| filter_content_types := Some ["troubleshooting"];
       filter_source_file := None |}
  else no_filters.

(** The body of the boosting loop of [filter_and_rank_results]. *)
Definition boost (context_type : string) (result : SearchResult) : SearchResult :=
  let content_types := content_types (metadata (chunk result)) in
  if String.eqb context_type "api" && mem "api" content_types then
    set_score result (score result * 1.2)%float
  else if String.eqb context_type "tutorial" && mem "code" content_types then
    set_score result (score result * 1.2)%float
  else if String.eqb context_type "troubleshooting"
          && mem "troubleshooting" content_types then
    set_score result (score result * 1.2)%float
  else result.

Definition filter_and_rank_results (config : Config) (results : list SearchResult)
    (question context_type : string) (filters : Filters) : list SearchResult :=
  let filtered_results :=
    List.filter (fun result => PrimFloat.leb (similarity_threshold config) (score result))
      results in
  let filtered_results := map (boost context_type) filtered_results in
  sorted_desc score filtered_results.

(** [int] to [float], for the counts below 2^53 that occur. *)
Definition float_of_Z (n : Z) : float := PrimFloat.of_uint63 (Uint63.of_Z n).

Definition update_metrics (m : Metrics) (r : RAGResponse) : Metrics :=
  let count := queries_processed m + 1 in
  {| queries_processed := count;
     cache_hits := cache_hits m;
     total_tokens_used := total_tokens_used m + tokens_used r;
     avg_response_time :=
       ((avg_response_time m * float_of_Z (count - 1) + response_time r)
        / float_of_Z count)%float |}.

Section RAGSystem.

Variable config : Config.
Variable encode : string -> list Z.
Variable md5_hexdigest : string -> string.
Variable Store : Type.
Variable Embedding : Type.
Variable embed : string -> Result Embedding.
Variable index : IndexOps Store Embedding.
Variable keyword_search : Store -> string -> Z -> Result (list SearchResult).
(** [VectorStore.index_documents]: embeds the chunks and rebuilds the
    index. *)
Variable index_documents : Store -> list DocumentChunk -> Result Store.
(** [generate_response]: the answer generator with its own fallback. *)
Variable generate_response : string -> list SearchResult -> Result RAGResponse.

(** The mutable attributes of a [RAGSystem]. *)
Record RAGSystem := {
  vector_store : Store;
  cache : gmap string CacheItem;
  metrics : Metrics
}.

(** [process_directory]: a file that cannot be read or parsed ([Raise])
    is logged and skipped. *)
Definition process_directory (files : list (Result Document))
    : list DocumentChunk :=
  flat_map (fun file =>
              match file with
              | Ok doc => create_contextual_chunks config encode md5_hexdigest doc
              | Raise _ => []
              end) files.

Definition index_documentation (sys : RAGSystem) (files : list (Result Document))
    : Result RAGSystem :=
  let chunks := process_directory files in
  if is_empty chunks then Ok sys
  else
    store ← index_documents (vector_store sys) chunks;
    Ok {| vector_store := store; cache := cache sys; metrics := metrics sys |}.

Definition create_cache_key (question context_type : string) (max_chunks : Z)
    : string :=
  md5_hexdigest (question +:+ "|" +:+ context_type +:+ "|" +:+ pretty max_chunks).

(** [cache_response] at the reading [now] of the clock; writing the
    pickle file is not modelled. *)
Definition cache_response (sys : RAGSystem) (cache_key : string)
    (r : RAGResponse) (now : Z) : RAGSystem :=
  {| vector_store := vector_store sys;
     cache := <[cache_key := {| response := r; timestamp := now |}]> (cache sys);
     metrics := metrics sys |}.

(** [clean_cache] *)
Definition clean_cache (sys : RAGSystem) (now : Z) : RAGSystem :=
  {| vector_store := vector_store sys;
     cache := base.filter (fun kv => is_cache_valid config (snd kv) now = true)
                (cache sys);
     metrics := metrics sys |}.

(** The body of [retrieve_context] from the point where [filters] is
    bound; [filters_for] stands for [self.create_search_filters]. *)
Definition retrieve_context_with (filters_for : string -> string -> Filters)
    (sys : RAGSystem) (question : string) (max_chunks : Z)
    (context_type : string) : Result (list SearchResult) :=
  let context_type := resolve_context_type question context_type in
  let filters := filters_for question context_type in
  search_results ←
    hybrid_search Store Embedding embed index keyword_search
      (vector_store sys) question (max_chunks * 2) 0.7%float 0.3%float;
  let filtered_results :=
    filter_and_rank_results config search_results question context_type filters in
  Ok (PyStr.slice_to max_chunks filtered_results).

Definition retrieve_context :=
  retrieve_context_with create_search_filters.

(** The cache check that opens [query]: the cached response when the key
    is present and its entry still valid at [now]. *)
Definition cache_lookup (sys : RAGSystem) (cache_key : string) (now : Z)
    : option RAGResponse :=
  match cache sys !! cache_key with
  | Some cached_response =>
      if is_cache_valid config cached_response now
      then Some (response cached_response)
      else None
  | None => None
  end.

Definition add_cache_hit (sys : RAGSystem) : RAGSystem :=
  {| vector_store := vector_store sys;
     cache := cache sys;
     metrics := {| queries_processed := queries_processed (metrics sys);
                   cache_hits := cache_hits (metrics sys) + 1;
                   avg_response_time := avg_response_time (metrics sys);
                   total_tokens_used := total_tokens_used (metrics sys) |} |}.

(** The response built by the [except] clause of [query]. *)
Definition error_response (question message : string) (elapsed : float)
    : RAGResponse :=
  {| query_text := question;
     answer := "I apologize, but I encountered an error processing your question: "
               +:+ message;
     sources := [];
     confidence := 0%float;
     response_time := elapsed;
     tokens_used := 0 |}.

(** The [try] block of [query]. *)
Definition answer_query (sys : RAGSystem) (question context_type : string)
    (max_context_chunks : Z) (use_cache stream_response : bool)
    (now_store : Z) (elapsed : float) : Result (QueryResult * RAGSystem) :=
  search_results ← retrieve_context sys question max_context_chunks context_type;
  if stream_response then Ok (Streaming question search_results, sys)
  else
    generated ← generate_response question search_results;
    let r := set_response_time generated elapsed in
    let sys :=
      if use_cache
      then cache_response sys
             (create_cache_key question context_type max_context_chunks)
             r now_store
      else sys in
    let sys := {| vector_store := vector_store sys; cache := cache sys;
                  metrics := update_metrics (metrics sys) r |} in
    Ok (Response r, sys).

(** [query].  [now] is the clock when the cache entry is checked,
    [now_store] when a new entry is written, [elapsed] the measured
    [time.time() - start_time]. *)
Definition query (sys : RAGSystem) (question context_type : string)
    (max_context_chunks : Z) (use_cache stream_response : bool)
    (now now_store : Z) (elapsed : float) : QueryResult * RAGSystem :=
  let cached :=
    if use_cache
    then cache_lookup sys
           (create_cache_key question context_type max_context_chunks) now
    else None in
  match cached with
  | Some r => (Response r, add_cache_hit sys)
  | None =>
      match answer_query sys question context_type max_context_chunks
              use_cache stream_response now_store elapsed with
      | Ok out => out
      | Raise message => (Response (error_response question message elapsed), sys)
      end
  end.

End RAGSystem.

(** ** Structured content extraction *)

Module Html.
(** The tag names [extract_structured_content] asks [find_all] for. *)
Inductive tag := h1 | h2 | h3 | h4 | h5 | h6 | p | pre | ul | ol | table.
End Html.

(** An element returned by [soup.find_all]: its tag name, its [get_text()],
    its [class] attribute ([[]] when it has none), and the [class]
    attribute of its first [code] descendant when there is one. *)
Record Element := {
  name : Html.tag;
  text : string;
  classes : list string;
  code_classes : option (list string)
}.

(** [int(element.name[1])] for the names that start with [h]. *)
Definition heading_level (name : Html.tag) : option Z :=
  match name with
  | Html.h1 => Some 1
  | Html.h2 => Some 2
  | Html.h3 => Some 3
  | Html.h4 => Some 4
  | Html.h5 => Some 5
  | Html.h6 => Some 6
  | _ => None
  end.

Definition known_languages : list string :=
  ["javascript"; "python"; "java"; "typescript"; "bash"; "json"; "yaml"].

(** One of the two loops of [detect_code_language] over a [class] list. *)
Fixpoint language_of_classes (classes : list string) : option string :=
  match classes with
  | [] => None
  | cls :: rest =>
      if String.prefix "language-" cls
      then Some (String.substring 9 (String.length cls - 9) cls)
      else if mem cls known_languages then Some cls
      else language_of_classes rest
  end.

Definition detect_code_language (pre_element : Element) : option string :=
  match language_of_classes (classes pre_element) with
  | Some language => Some language
  | None =>
      match code_classes pre_element with
      | Some code_class => language_of_classes code_class
      | None => None
      end
  end.

(** One iteration of the loop of [extract_structured_content]; the state is
    [(content_blocks, current_section)]. *)
Definition extract_step (st : list Block * option string) (element : Element)
    : list Block * option string :=
  let content_blocks := fst st in
  let current_section := snd st in
  match heading_level (name element) with
  | Some n =>
      let current_section := PyStr.strip (text element) in
      (content_blocks ++
         [{| type := "heading"; b_content := current_section; language := None;
             b_section := Some current_section; level := Some n |}],
       Some current_section)
  | None =>
      match name element with
      | Html.pre =>
          (content_blocks ++
             [{| type := "code"; b_content := text element;
                 language := Some (detect_code_language element);
                 b_section := current_section; level := None |}],
           current_section)
      | Html.ul | Html.ol =>
          (content_blocks ++
             [{| type := "list"; b_content := text element; language := None;
                 b_section := current_section; level := None |}],
           current_section)
      | Html.table =>
          (content_blocks ++
             [{| type := "table"; b_content := text element; language := None;
                 b_section := current_section; level := None |}],
           current_section)
      | _ =>
          let text_content := PyStr.strip (text element) in
          match text_content with
          | EmptyString => (content_blocks, current_section)
          | _ =>
              (content_blocks ++
                 [{| type := "text"; b_content := text_content; language := None;
                     b_section := current_section; level := None |}],
               current_section)
          end
      end
  end.

Definition extract_structured_content (elements : list Element) : list Block :=
  fst (fold_left extract_step elements ([], None)).

(** [load_cache] at the reading [now] of the clock.  [cache_file] is [None]
    when the pickle file does not exist, [Some (Raise _)] when reading it
    fails, [Some (Ok loaded)] when it holds the dictionary [loaded]. *)
Definition load_cache (config : Config) {Store : Type} (sys : RAGSystem Store)
    (cache_file : option (Result (gmap string CacheItem))) (now : Z)
    : RAGSystem Store :=
  match cache_file with
  | None => sys
  | Some (Ok loaded) =>
      clean_cache config Store
        {| vector_store := vector_store Store sys; cache := loaded;
           metrics := metrics Store sys |} now
  | Some (Raise _) =>
      {| vector_store := vector_store Store sys; cache := ∅;
         metrics := metrics Store sys |}
  end.

(** ** Notions used to state further properties *)

(** The text of the last heading block of a sequence, if it has one. *)
Definition last_heading (blocks : list Block) : option string :=
  fold_left (fun acc b => if String.eqb (type b) "heading"
                          then Some (b_content b) else acc) blocks None.

(** Two blocks that differ at most in their [section] and [level]. *)
Definition same_text (b b' : Block) : Prop :=
  type b = type b' /\ b_content b = b_content b' /\ language b = language b'.

(** The value of a decimal digit, and of a string of them. *)
Definition digit_value (c : ascii) : N := (N.of_nat (nat_of_ascii c) - 48)%N.

Fixpoint decimal_value_from (acc : N) (s : string) : N :=
  match s with
  | EmptyString => acc
  | String c r => decimal_value_from (acc * 10 + digit_value c) r
  end.

Definition decimal_value (s : string) : N := decimal_value_from 0 s.

(** Whether a class names a language for [detect_code_language]. *)
Definition names_language (cls : string) : bool :=
  String.prefix "language-" cls || mem cls known_languages.

(** A string made of whitespace only. *)
Fixpoint all_space (s : string) : bool :=
  match s with
  | EmptyString => true
  | String c r => PyStr.is_space c && all_space r
  end.

(** A string with no whitespace character in it. *)
Fixpoint no_space (s : string) : bool :=
  match s with
  | EmptyString => true
  | String c r => negb (PyStr.is_space c) && no_space r
  end.

(** A document with its blocks replaced. *)
Definition with_blocks (doc : Document) (blocks : list Block) : Document :=
  {| file_path := file_path doc; relative_path := relative_path doc;
     doc_title := doc_title doc; doc_metadata := doc_metadata doc;
     content_blocks := blocks |}.

(** The shapes of the blocks [extract_structured_content] builds. *)
Definition block_shape (b : Block) : Prop :=
  (type b = "heading"
   /\ (exists n, level b = Some n /\ 1 <= n <= 6)
   /\ b_section b = Some (b_content b)
   /\ language b = None
   /\ PyStr.strip (b_content b) = b_content b)
  \/ (type b = "code" /\ (exists l, language b = Some l) /\ level b = None)
  \/ ((type b = "list" \/ type b = "table")
      /\ language b = None /\ level b = None)
  \/ (type b = "text"
      /\ b_content b <> EmptyString
      /\ PyStr.strip (b_content b) = b_content b
      /\ language b = None /\ level b = None).

(** The blocks read so far split into one fresh part per buffer: each
    buffer is the overlap carried into it followed by its fresh part. *)
Definition covers (config : Config) (encode : string -> list Z)
    (read : list Block) (st : BufferState) : Prop :=
  exists (fresh_closed : list (list Block)) (fresh_buffer : list Block),
    concat fresh_closed ++ fresh_buffer = read
    /\ length fresh_closed = length (closed st)
    /\ Forall (fun f => f <> []) fresh_closed
    /\ (fresh_buffer = [] -> buffer st = [] /\ closed st = [])
    /\ (forall k buf, closed st !! k = Some buf ->
          exists f, fresh_closed !! k = Some f /\ buf = prev_overlap config encode (closed st) k ++ f)
    /\ buffer st = prev_overlap config encode (closed st) (length (closed st)) ++ fresh_buffer.

(** A string that does not start with whitespace. *)
Definition clean_head (s : string) : Prop :=
  match s with
  | EmptyString => True
  | String c _ => PyStr.is_space c = false
  end.


(** ** Concrete inputs *)

(** A tokenizer giving one token per character. *)
Definition char_tokens (s : string) : list Z :=
  map (fun c => Z.of_nat (nat_of_ascii c)) (list_ascii_of_string s).

(** A stand-in digest: the text itself. *)
Definition plain_digest (s : string) : string := s.

Definition small_config (size overlap : Z) : Config :=
  {| chunk_size := size; chunk_overlap := overlap; top_k_documents := 10;
     similarity_threshold := 0.7%float; cache_ttl_hours := 24 |}.

Definition text_block (s : string) : Block :=
  {| type := "text"; b_content := s; language := None; b_section := None;
     level := None |}.

Definition doc_of (blocks : list Block) : Document :=
  {| file_path := "docs/guide.md"; relative_path := "guide.md";
     doc_title := "Guide"; doc_metadata := ∅; content_blocks := blocks |}.

Definition chunk_with (chunk_id : string) (tags : list string) : DocumentChunk :=
  {| id := chunk_id; content := "text"; source_file := "docs/guide.md";
     title := "Guide"; section := None; url := None;
     metadata := {| front_matter := ∅; token_count := 1; content_types := tags |} |}.

Definition hit (chunk_id : string) (s : float) (tags : list string) (label : string)
    : SearchResult :=
  {| chunk := chunk_with chunk_id tags; score := s; relevance_type := label |}.

Definition embed_ok (query : string) : Result unit := Ok tt.

Definition embed_down (query : string) : Result unit :=
  Raise "embedding provider unavailable".

(** The row [index_documents] stores for a chunk. *)
Definition row_of_chunk (c : DocumentChunk) : Row :=
  {| row_id := id c; row_document := content c;
     row_source_file := source_file c; row_title := title c;
     row_section := default "" (section c); row_url := default "" (url c);
     row_metadata := metadata c |}.

(** An index over the chunks of [stored], in that order, whose search
    returns [neighbours] for every query. *)
Definition index_with (neighbours : list (float * Z)) (stored : list SearchResult)
    : IndexOps unit unit :=
  {| faiss_search := fun _ _ _ => Ok neighbours;
     chunk_ids := fun _ => ids stored;
     collection_get := fun _ requested =>
       Ok (List.filter (fun row => mem (row_id row) requested)
             (map (fun r => row_of_chunk (chunk r)) stored)) |}.

(** The index whose search returns every stored chunk, in storage order,
    with the score of its result. *)
Definition fixed_index (results : list SearchResult) : IndexOps unit unit :=
  index_with (imap (fun i r => (score r, Z.of_nat i)) results) results.

Definition fixed_keywords (results : list SearchResult) (store : unit)
    (query : string) (k : Z) : Result (list SearchResult) :=
  Ok results.

Definition reindex_ok (store : unit) (chunks : list DocumentChunk) : Result unit :=
  Ok tt.

Definition generate_plain (question : string) (results : list SearchResult)
    : Result RAGResponse :=
  Ok {| query_text := question; answer := "generated"; sources := [];
        confidence := 1%float; response_time := 0%float; tokens_used := 0 |}.

Definition stored_response : RAGResponse :=
  {| query_text := "how to log in"; answer := "cached"; sources := [];
     confidence := 1%float; response_time := 0%float; tokens_used := 0 |}.

Definition empty_system : RAGSystem unit :=
  {| vector_store := tt; cache := ∅;
     metrics := {| queries_processed := 0; cache_hits := 0;
                   avg_response_time := 0%float; total_tokens_used := 0 |} |}.

(** One hour and one day in microseconds. *)
Definition one_hour : Z := 3600000000.
Definition one_day : Z := 86400000000.

(** ** Further concrete inputs *)

Definition code_block (lang s : string) : Block :=
  {| type := "code"; b_content := s; language := Some (Some lang);
     b_section := None; level := None |}.

Definition heading_block (n : Z) (s : string) : Block :=
  {| type := "heading"; b_content := s; language := None; b_section := Some s;
     level := Some n |}.

Definition in_section (s : string) (b : Block) : Block :=
  {| type := type b; b_content := b_content b; language := language b;
     b_section := Some s; level := level b |}.

Definition element (tag : Html.tag) (s : string) : Element :=
  {| name := tag; text := s; classes := []; code_classes := None |}.

Definition with_threshold (t : float) : Config :=
  {| chunk_size := 1000; chunk_overlap := 200; top_k_documents := 10;
     similarity_threshold := t; cache_ttl_hours := 24 |}.

Definition page : list Element :=
  [element Html.h1 "Guide"; element Html.p "Welcome."; element Html.h2 " Install ";
   element Html.pre "pip install it"; element Html.p "  "].

(** * Properties *)

(** ** Sanity checks of the string operations *)

Example strip_example : PyStr.strip ("  a b" +:+ PyStr.nl) = "a b".
Proof. reflexivity. Qed.

Example replace_example : PyStr.replace ".md" "" "guide/login.md" = "guide/login".
Proof. reflexivity. Qed.

Example format_03d_example :
  PyStr.format_03d 7 = "007" /\ PyStr.format_03d 1234 = "1234".
Proof. split; reflexivity. Qed.

Example slice_to_example :
  PyStr.slice_to 2 [1; 2; 3] = [1; 2] /\ PyStr.slice_to (-1) [1; 2; 3] = [1; 2].
Proof. split; reflexivity. Qed.

(** ** Order facts about binary64 comparison *)

Lemma SFltb_lex (f g : spec_float) :
  f <> S754_nan -> g <> S754_nan ->
  (SFltb f g = true <-> lex_lt (sf_key f) (sf_key g)).
Proof.
  intros Hf Hg. unfold SFltb, lex_lt.
  destruct f as [s|s| |s m e], g as [s'|s'| |s' m' e']; try done;
    try destruct s; try destruct s'; simpl; try (split; [done|lia]);
    try (split; [lia|done]).
  - change (Pos.compare_cont Eq m m') with (Pos.compare m m').
    destruct (Z.compare_spec e e'), (Pos.compare_spec m m'); simpl;
      split; (done || lia).
  - change (Pos.compare_cont Eq m m') with (Pos.compare m m').
    destruct (Z.compare_spec e e'), (Pos.compare_spec m m'); simpl;
      split; (done || lia).
Qed.

Lemma sf_nan_dec (f : spec_float) : {f = S754_nan} + {f <> S754_nan}.
Proof. destruct f; (by left) || (by right). Qed.

Lemma SFltb_nan_l (g : spec_float) : SFltb S754_nan g = false.
Proof. done. Qed.

Lemma SFltb_nan_r (f : spec_float) : SFltb f S754_nan = false.
Proof. by destruct f. Qed.

Lemma not_nan_spec (x : float) : PrimFloat.is_nan x = false -> Prim2SF x <> S754_nan.
Proof.
  unfold PrimFloat.is_nan. rewrite FloatAxioms.eqb_spec. intros H Hn. rewrite Hn in H. done.
Qed.

(** [<] on floats is asymmetric. *)
Lemma ltb_asym (x y : float) : PrimFloat.ltb x y = true -> PrimFloat.ltb y x = false.
Proof.
  rewrite !FloatAxioms.ltb_spec. intros H.
  destruct (sf_nan_dec (Prim2SF x)) as [Hx|Hx];
    [by rewrite Hx, SFltb_nan_r|].
  destruct (sf_nan_dec (Prim2SF y)) as [Hy|Hy];
    [by rewrite Hy, SFltb_nan_l|].
  apply (SFltb_lex _ _ Hx Hy) in H.
  destruct (SFltb (Prim2SF y) (Prim2SF x)) eqn:E; [|done].
  apply (SFltb_lex _ _ Hy Hx) in E. unfold lex_lt in *. lia.
Qed.

(** "Not below" is transitive through a value that is not a NaN. *)
Lemma ltb_false_trans (x y z : float) :
  PrimFloat.is_nan y = false ->
  PrimFloat.ltb x y = false -> PrimFloat.ltb y z = false ->
  PrimFloat.ltb x z = false.
Proof.
  rewrite !FloatAxioms.ltb_spec. intros Hy%not_nan_spec Hxy Hyz.
  destruct (sf_nan_dec (Prim2SF x)) as [Hx|Hx];
    [by rewrite Hx, SFltb_nan_l|].
  destruct (sf_nan_dec (Prim2SF z)) as [Hz|Hz];
    [by rewrite Hz, SFltb_nan_r|].
  destruct (SFltb (Prim2SF x) (Prim2SF z)) eqn:E; [|done].
  apply (SFltb_lex _ _ Hx Hz) in E.
  assert (~ lex_lt (sf_key (Prim2SF x)) (sf_key (Prim2SF y))) as H1
    by (rewrite <- (SFltb_lex _ _ Hx Hy); congruence).
  assert (~ lex_lt (sf_key (Prim2SF y)) (sf_key (Prim2SF z))) as H2
    by (rewrite <- (SFltb_lex _ _ Hy Hz); congruence).
  unfold lex_lt in *. lia.
Qed.

Lemma SFeqb_key (f g : spec_float) :
  SFeqb f g = true ->
  f <> S754_nan /\ g <> S754_nan /\ sf_key f = sf_key g.
Proof.
  unfold SFeqb.
  destruct f as [s|s| |s m e], g as [s'|s'| |s' m' e']; try done;
    try destruct s; try destruct s'; simpl; try done.
  - change (Pos.compare_cont Eq m m') with (Pos.compare m m').
    destruct (Z.compare_spec e e'), (Pos.compare_spec m m'); simpl; try done.
    by subst.
  - change (Pos.compare_cont Eq m m') with (Pos.compare m m').
    destruct (Z.compare_spec e e'), (Pos.compare_spec m m'); simpl; try done.
    by subst.
Qed.

(** Two floats equal to a third are not below one another. *)
Lemma eqb_tie (x y v : float) :
  PrimFloat.eqb x v = true -> PrimFloat.eqb y v = true ->
  PrimFloat.ltb x y = false.
Proof.
  rewrite !FloatAxioms.eqb_spec, FloatAxioms.ltb_spec.
  intros (Hx & _ & Hxv)%SFeqb_key (Hy & _ & Hyv)%SFeqb_key.
  destruct (SFltb (Prim2SF x) (Prim2SF y)) eqn:E; [|done].
  apply (SFltb_lex _ _ Hx Hy) in E. rewrite Hxv, Hyv in E.
  unfold lex_lt in E. lia.
Qed.

(** ** The stable descending sort *)

Section SortingProps.
Context {A : Type}.
Variable key : A -> float.

Local Abbreviation below a b := (PrimFloat.ltb (key a) (key b)).

Lemma insert_desc_perm (x : A) (l : list A) : Permutation (insert_desc key x l) (x :: l).
Proof.
  induction l as [|y l IH]; simpl; [done|].
  destruct (below x y); [|done].
  rewrite IH. apply perm_swap.
Qed.

Lemma sorted_desc_perm (l : list A) : Permutation (sorted_desc key l) l.
Proof.
  induction l as [|x l IH]; simpl; [done|].
  by rewrite insert_desc_perm, IH.
Qed.

(** Elements none of which is below another keep their order. *)
Lemma insert_desc_stable (P : A -> bool) (x : A) (l : list A) :
  (forall a b, P a = true -> P b = true -> below a b = false) ->
  List.filter P (insert_desc key x l) = List.filter P (x :: l).
Proof.
  intros Htied. induction l as [|y l IH]; simpl; [done|].
  destruct (below x y) eqn:Hxy; [|done].
  simpl in *. rewrite IH.
  destruct (P x) eqn:Hx, (P y) eqn:Hy; try done.
  by rewrite (Htied x y) in Hxy.
Qed.

Lemma sorted_desc_stable (P : A -> bool) (l : list A) :
  (forall a b, P a = true -> P b = true -> below a b = false) ->
  List.filter P (sorted_desc key l) = List.filter P l.
Proof.
  intros Htied. induction l as [|x l IH]; simpl; [done|].
  rewrite insert_desc_stable by done. simpl. by rewrite IH.
Qed.

Lemma insert_desc_sorted (x : A) (l : list A) :
  Forall (fun a => PrimFloat.is_nan (key a) = false) l ->
  StronglySorted (fun a b => below a b = false) l ->
  StronglySorted (fun a b => below a b = false) (insert_desc key x l).
Proof.
  intros Hnan Hs. induction l as [|y l IH]; simpl.
  - by repeat constructor.
  - apply Forall_cons in Hnan as [Hy Hnan].
    apply StronglySorted_inv in Hs as [Hs Hall].
    destruct (below x y) eqn:Hxy.
    + constructor; [by apply IH|].
      rewrite (insert_desc_perm x l). constructor; [|done].
      by apply ltb_asym.
    + constructor; [by constructor|].
      constructor; [done|].
      eapply List.Forall_impl; [|exact Hall].
      intros z Hyz. simpl in Hyz. by eapply ltb_false_trans.
Qed.

Lemma sorted_desc_sorted (l : list A) :
  Forall (fun a => PrimFloat.is_nan (key a) = false) l ->
  StronglySorted (fun a b => below a b = false) (sorted_desc key l).
Proof.
  intros Hnan. induction l as [|x l IH]; simpl; [constructor|].
  apply Forall_cons in Hnan as [Hx Hnan].
  apply insert_desc_sorted; [|by apply IH].
  by rewrite sorted_desc_perm.
Qed.

End SortingProps.

(** ** The chunker *)

Section ChunkerProps.
Variable config : Config.
Variable encode : string -> list Z.
Variable md5_hexdigest : string -> string.

Local Abbreviation tokens := (count_tokens encode).
Local Abbreviation total := (sum_tokens encode).
Local Abbreviation overlap := (get_overlap_blocks config encode).
Local Abbreviation step := (buffer_step config encode).
Local Abbreviation buffer_inv := (buffer_inv config encode).

Lemma sum_tokens_app (a b : list Block) : total (a ++ b) = total a + total b.
Proof. induction a as [|x a IH]; simpl; [|rewrite IH]; lia. Qed.

Lemma sum_tokens_nonneg (l : list Block) : 0 <= total l.
Proof. induction l as [|x l IH]; simpl; unfold count_tokens in *; lia. Qed.

Lemma sum_tokens_rev (l : list Block) : total (rev l) = total l.
Proof.
  induction l as [|x l IH]; simpl; [done|].
  rewrite sum_tokens_app, IH. simpl. lia.
Qed.

Lemma overlap_loop_take (reversed_blocks : list Block) :
  forall n acc, exists k,
    overlap_loop config encode reversed_blocks n acc
      = rev (take k reversed_blocks) ++ acc
    /\ (n <= chunk_overlap config ->
        n + total (take k reversed_blocks) <= chunk_overlap config).
Proof.
  induction reversed_blocks as [|b rest IH]; intros n acc; simpl.
  - exists O. simpl. split; [done|lia].
  - destruct (Z.leb_spec (n + tokens (b_content b)) (chunk_overlap config)) as [Hle|Hgt].
    + destruct (IH (n + tokens (b_content b)) (b :: acc)) as (k & Heq & Hsum).
      exists (S k). simpl. rewrite Heq. split.
      * by rewrite <- app_assoc.
      * intros _. specialize (Hsum Hle). lia.
    + exists O. simpl. split; [done|lia].
Qed.

Lemma get_overlap_blocks_take (blocks : list Block) :
  exists k, overlap blocks = rev (take k (rev blocks))
    /\ (0 <= chunk_overlap config ->
        total (overlap blocks) <= chunk_overlap config).
Proof.
  destruct blocks as [|b l].
  - exists O. simpl. split; [done|lia].
  - unfold get_overlap_blocks.
    destruct (overlap_loop_take (rev (b :: l)) 0 []) as (k & Heq & Hsum).
    exists k. rewrite Heq, app_nil_r. split; [done|].
    intros H. specialize (Hsum H). rewrite sum_tokens_rev. lia.
Qed.

Lemma get_overlap_blocks_suffix (blocks : list Block) :
  overlap blocks `suffix_of` blocks.
Proof.
  destruct (get_overlap_blocks_take blocks) as (k & -> & _).
  exists (rev (drop k (rev blocks))).
  rewrite <- rev_app_distr, take_drop. by rewrite rev_involutive.
Qed.

Lemma get_overlap_blocks_bound (blocks : list Block) :
  0 <= chunk_overlap config -> total (overlap blocks) <= chunk_overlap config.
Proof. destruct (get_overlap_blocks_take blocks) as (k & _ & H). exact H. Qed.



Lemma buffer_init_inv : buffer_inv buffer_init.
Proof.
  split; simpl.
  - done.
  - done.
  - constructor.
  - intros k a b H. by rewrite lookup_nil in H.
  - intros k bk H. unfold all_buffers in H. simpl in H.
    destruct k; simpl in H; [left; congruence|by rewrite lookup_nil in H].
Qed.

Lemma prev_overlap_app (l1 l2 : list (list Block)) (k : nat) :
  (k <= length l1)%nat ->
  prev_overlap config encode (l1 ++ l2) k = prev_overlap config encode l1 k.
Proof.
  intros Hk. destruct k as [|j]; simpl; [done|].
  rewrite lookup_app_l by lia. done.
Qed.

Lemma prev_overlap_last (l : list (list Block)) (x : list Block) (l2 : list (list Block)) :
  prev_overlap config encode ((l ++ [x]) ++ l2) (S (length l)) = overlap x.
Proof.
  simpl. rewrite <- app_assoc. rewrite lookup_app_r by lia.
  by rewrite Nat.sub_diag.
Qed.

Lemma buffer_step_split (st : BufferState) (block : Block) :
  buffer st <> [] ->
  chunk_size config < buffer_size st + tokens (b_content block) ->
  step st block =
    {| closed := closed st ++ [buffer st];
       buffer := overlap (buffer st) ++ [block];
       buffer_size := total (overlap (buffer st) ++ [block]) |}.
Proof.
  intros Hne Hgt. unfold buffer_step.
  destruct (Z.gtb_spec (buffer_size st + tokens (b_content block)) (chunk_size config)); [|lia].
  destruct (buffer st); [done|]. reflexivity.
Qed.

Lemma buffer_step_append (st : BufferState) (block : Block) :
  buffer st = [] \/ buffer_size st + tokens (b_content block) <= chunk_size config ->
  step st block =
    {| closed := closed st;
       buffer := buffer st ++ [block];
       buffer_size := buffer_size st + tokens (b_content block) |}.
Proof.
  intros H. unfold buffer_step.
  destruct H as [->|H]; [by rewrite andb_false_r|].
  destruct (Z.gtb_spec (buffer_size st + tokens (b_content block)) (chunk_size config)); [lia|].
  reflexivity.
Qed.

Lemma buffer_step_cases (st : BufferState) (block : Block) :
  (buffer st <> [] /\ chunk_size config < buffer_size st + tokens (b_content block))
  \/ (buffer st = [] \/ buffer_size st + tokens (b_content block) <= chunk_size config).
Proof.
  destruct (buffer st); [right; by left|].
  destruct (Z.lt_ge_cases (chunk_size config) (buffer_size st + tokens (b_content block)));
    [left; split; [done|lia] | right; right; lia].
Qed.

Lemma buffer_step_inv (st : BufferState) (block : Block) :
  buffer_inv st -> buffer_inv (step st block).
Proof.
  intros [Hsize Hempty Hclosed Hlink Hbound].
  destruct (buffer_step_cases st block) as [[Hne Hgt]|Happ].
  - rewrite (buffer_step_split _ _ Hne Hgt). split; simpl.
    + done.
    + intros H. by apply app_eq_nil in H as [_ ?].
    + apply Forall_app. split; [done|]. by constructor.
    + intros k a b Ha Hb. unfold all_buffers in Hb. simpl in Hb.
      destruct (decide (k < length (closed st))%nat) as [Hlt|Hge].
      * rewrite lookup_app_l in Ha by done.
        rewrite lookup_app_l in Hb by (rewrite length_app; simpl; lia).
        by apply (Hlink k).
      * rewrite lookup_app_r in Ha by lia.
        apply list_lookup_singleton_Some in Ha as [Hk <-].
        assert (k = length (closed st)) as -> by lia.
        rewrite lookup_app_r in Hb by (rewrite length_app; simpl; lia).
        rewrite length_app in Hb. simpl in Hb.
        replace (S (length (closed st)) - (length (closed st) + 1))%nat with O in Hb by lia.
        simpl in Hb. injection Hb as <-.
        exists [block]. split; done.
    + intros k bk Hk. unfold all_buffers in *. simpl in *.
      destruct (decide (k <= length (closed st))%nat) as [Hle|Hgt'].
      * rewrite lookup_app_l in Hk by (rewrite length_app; simpl; lia).
        rewrite prev_overlap_app by (rewrite length_app; simpl; lia).
        by apply Hbound.
      * rewrite lookup_app_r in Hk by (rewrite length_app; simpl; lia).
        apply list_lookup_singleton_Some in Hk as [Hk <-].
        rewrite length_app in Hk. simpl in Hk.
        assert (k = S (length (closed st))) as -> by lia.
        right; right. exists block.
        by rewrite prev_overlap_last.
  - rewrite (buffer_step_append _ _ Happ). split; simpl.
    + rewrite sum_tokens_app. simpl. lia.
    + intros H. by apply app_eq_nil in H as [_ ?].
    + done.
    + intros k a b Ha Hb. unfold all_buffers in *. simpl in *.
      assert (k < length (closed st))%nat as Hlt by (by eapply lookup_lt_Some).
      destruct (decide (S k < length (closed st))%nat) as [Hlt'|Hge].
      * rewrite lookup_app_l in Hb by done.
        apply (Hlink k a b Ha). by rewrite lookup_app_l.
      * rewrite lookup_app_r in Hb by lia.
        apply list_lookup_singleton_Some in Hb as [Hk <-].
        destruct (Hlink k a (buffer st) Ha) as (rest & Hrest & Heq).
        { rewrite lookup_app_r by lia.
          replace (S k - length (closed st))%nat with O by lia. done. }
        exists (rest ++ [block]). split.
        -- intros H. by apply app_eq_nil in H as [_ ?].
        -- rewrite Heq. by rewrite <- app_assoc.
    + intros k bk Hk. unfold all_buffers in *. simpl in *.
      destruct (decide (k < length (closed st))%nat) as [Hlt|Hge].
      * rewrite lookup_app_l in Hk by done.
        rewrite prev_overlap_app by lia.
        rewrite <- (prev_overlap_app _ [buffer st]) by lia.
        apply Hbound. by rewrite lookup_app_l.
      * rewrite lookup_app_r in Hk by lia.
        apply list_lookup_singleton_Some in Hk as [Hk <-].
        assert (k = length (closed st)) as -> by lia.
        destruct Happ as [Hnil|Hle].
        -- right; right. exists block.
           rewrite Hnil, (Hempty Hnil). done.
        -- right; left. rewrite sum_tokens_app. simpl. lia.
Qed.

Lemma buffer_run_inv (blocks : list Block) (st : BufferState) :
  buffer_inv st -> buffer_inv (fold_left step blocks st).
Proof.
  revert st. induction blocks as [|b l IH]; intros st H; simpl; [done|].
  apply IH. by apply buffer_step_inv.
Qed.


Local Abbreviation run := (fold_left step).

Lemma flush_nonempty (st : BufferState) :
  buffer st <> [] -> flush st = all_buffers st.
Proof. unfold flush, all_buffers. by destruct (buffer st). Qed.

Lemma flush_empty (st : BufferState) :
  buffer_inv st -> buffer st = [] -> flush st = [].
Proof.
  intros Hinv Hnil. unfold flush. rewrite Hnil. simpl. by apply (inv_empty config encode).
Qed.

Lemma flush_prefix_all (st : BufferState) :
  buffer_inv st -> flush st `prefix_of` all_buffers st.
Proof.
  intros Hinv. destruct (buffer st) eqn:Hb.
  - rewrite flush_empty by done. apply prefix_nil.
  - rewrite flush_nonempty by congruence. done.
Qed.

Lemma flush_lookup (st : BufferState) (k : nat) (bk : list Block) :
  buffer_inv st -> flush st !! k = Some bk ->
  all_buffers st !! k = Some bk /\ bk <> [].
Proof.
  intros Hinv Hk. destruct (buffer st) eqn:Hb.
  - rewrite flush_empty in Hk by done. by rewrite lookup_nil in Hk.
  - rewrite flush_nonempty in Hk by congruence. split; [done|].
    unfold all_buffers in Hk.
    destruct (decide (k < length (closed st))%nat) as [Hlt|Hge].
    + rewrite lookup_app_l in Hk by done.
      pose proof (inv_closed config encode _ Hinv) as Hc.
      rewrite Forall_forall in Hc. apply Hc.
      by eapply list_elem_of_lookup_2.
    + rewrite lookup_app_r in Hk by lia.
      apply list_lookup_singleton_Some in Hk as [_ <-]. congruence.
Qed.

Lemma prev_overlap_prefix (l1 l2 : list (list Block)) (k : nat) :
  l1 `prefix_of` l2 -> (k <= length l1)%nat ->
  prev_overlap config encode l2 k = prev_overlap config encode l1 k.
Proof. intros [l ->] Hk. by apply prev_overlap_app. Qed.

Lemma closed_grows (blocks : list Block) (st : BufferState) :
  closed st `prefix_of` closed (run blocks st).
Proof.
  revert st. induction blocks as [|b l IH]; intros st; simpl; [done|].
  etransitivity; [|apply IH].
  destruct (buffer_step_cases st b) as [[Hne Hgt]|Happ].
  - rewrite (buffer_step_split _ _ Hne Hgt). simpl. by apply prefix_app_r.
  - by rewrite (buffer_step_append _ _ Happ).
Qed.

Lemma closed_prefix_flush (st : BufferState) : closed st `prefix_of` flush st.
Proof.
  unfold flush. destruct (negb (is_empty (buffer st))); [by apply prefix_app_r|done].
Qed.

(** The chunks are built from the closed buffers, one for one. *)
Lemma chunk_contents (doc : Document) :
  content <$> create_contextual_chunks config encode md5_hexdigest doc
  = combine_blocks <$> chunk_buffers config encode (content_blocks doc).
Proof.
  unfold create_contextual_chunks, chunk_buffers, flush.
  assert (forall blocks st bs,
    content <$> chunks st = combine_blocks <$> closed bs ->
    current_chunk st = buffer bs -> current_size st = buffer_size bs ->
    let st' := fold_left (chunk_step config encode md5_hexdigest doc) blocks st in
    let bs' := run blocks bs in
    content <$> chunks st' = combine_blocks <$> closed bs'
    /\ current_chunk st' = buffer bs' /\ current_size st' = buffer_size bs') as Hrun.
  { induction blocks as [|b l IH]; intros st bs H1 H2 H3; simpl; [done|].
    apply IH; unfold chunk_step, buffer_step; rewrite H2, H3;
      destruct (_ && _); simpl; try done.
    rewrite !fmap_app, H1. done. }
  destruct (Hrun (content_blocks doc) (chunker_init) buffer_init) as (H1 & H2 & H3);
    try done.
  rewrite H2. destruct (negb (is_empty _)); [|done].
  rewrite !fmap_app, H1. done.
Qed.


(** C3.  Overlap correctness: in two consecutive chunks of one document,
    the second starts with the overlap blocks [get_overlap_blocks] selects
    from the first; these are whole blocks forming a suffix of the first
    chunk's block sequence, their token counts sum to at most
    [chunk_overlap], and at least one new block follows them. *)
Theorem overlap_correctness (doc : Document) (k : nat) (this next : list Block) :
  0 <= chunk_overlap config ->
  chunk_buffers config encode (content_blocks doc) !! k = Some this ->
  chunk_buffers config encode (content_blocks doc) !! S k = Some next ->
  content <$> create_contextual_chunks config encode md5_hexdigest doc !! k
    = Some (combine_blocks this)
  /\ content <$> create_contextual_chunks config encode md5_hexdigest doc !! S k
    = Some (combine_blocks next)
  /\ overlap this `suffix_of` this
  /\ total (overlap this) <= chunk_overlap config
  /\ exists rest, rest <> [] /\ next = overlap this ++ rest.
Proof.
  intros Hco Hk HSk.
  pose proof (chunk_contents doc) as Hc.
  split; [|split].
  - by rewrite <- list_lookup_fmap, Hc, list_lookup_fmap, Hk.
  - by rewrite <- list_lookup_fmap, Hc, list_lookup_fmap, HSk.
  - split; [apply get_overlap_blocks_suffix|].
    split; [by apply get_overlap_blocks_bound|].
    unfold chunk_buffers in *.
    set (st := run (content_blocks doc) buffer_init) in *.
    assert (buffer_inv st) as Hinv by apply buffer_run_inv, buffer_init_inv.
    apply (flush_lookup _ _ _ Hinv) in HSk as [HSk _].
    apply (flush_lookup _ _ _ Hinv) in Hk as [Hk _].
    apply (inv_link config encode _ Hinv k); [|done].
    unfold all_buffers in *.
    assert (S k < length (closed st ++ [buffer st]))%nat as Hlt
      by (by eapply lookup_lt_Some).
    rewrite length_app in Hlt. simpl in Hlt.
    by rewrite lookup_app_l in Hk by lia.
Qed.

(** The bound the loop maintains on each closed buffer. *)
Lemma buffer_tokens_bound (blocks : list Block) (k : nat) (bk : list Block) :
  chunk_buffers config encode blocks !! k = Some bk ->
  total bk <= chunk_size config
  \/ exists b, bk = prev_overlap config encode (chunk_buffers config encode blocks) k ++ [b].
Proof.
  intros Hk. unfold chunk_buffers in *.
  set (st := run blocks buffer_init) in *.
  assert (buffer_inv st) as Hinv by apply buffer_run_inv, buffer_init_inv.
  pose proof (lookup_lt_Some _ _ _ Hk) as Hlt.
  apply (flush_lookup _ _ _ Hinv) in Hk as [Hk Hne].
  rewrite <- (prev_overlap_prefix (flush st) (all_buffers st)) by
    (by apply flush_prefix_all || lia).
  destruct (inv_bound config encode _ Hinv k bk Hk) as [?|[?|?]]; [done|by left|by right].
Qed.

(** C1, amended.  Every emitted chunk is the combination of a sequence of
    whole blocks whose token counts (the running count the loop compares
    with [chunk_size]) sum to at most [chunk_size], unless that sequence is
    the overlap carried over from the chunk before it (nothing, for the
    first chunk) followed by exactly one block.  The bound is on the blocks,
    not on the token count of the combined content. *)
Theorem chunk_block_tokens_bound (doc : Document) (k : nat) (c : DocumentChunk) :
  create_contextual_chunks config encode md5_hexdigest doc !! k = Some c ->
  exists blocks,
    chunk_buffers config encode (content_blocks doc) !! k = Some blocks
    /\ content c = combine_blocks blocks
    /\ (total blocks <= chunk_size config
        \/ exists b,
             blocks = prev_overlap config encode
                        (chunk_buffers config encode (content_blocks doc)) k ++ [b]).
Proof.
  intros Hc.
  assert ((content <$> create_contextual_chunks config encode md5_hexdigest doc) !! k
          = Some (content c)) as H by (by rewrite list_lookup_fmap, Hc).
  rewrite (chunk_contents doc), list_lookup_fmap in H.
  destruct (chunk_buffers config encode (content_blocks doc) !! k) as [bk|] eqn:Hk;
    simpl in H; [|done].
  injection H as H. exists bk. split; [done|]. split; [done|].
  by apply buffer_tokens_bound.
Qed.

(** The state once an oversized block has been read: everything before it
    is closed, and the buffer holds the overlap and that block. *)
Lemma oversized_block_state (pre : list Block) (b : Block) :
  chunk_size config < tokens (b_content b) ->
  let st := run (pre ++ [b]) buffer_init in
  let before := chunk_buffers config encode pre in
  closed st = before
  /\ buffer st = overlap (default [] (last before)) ++ [b].
Proof.
  intros Hbig. simpl. rewrite fold_left_app. simpl.
  unfold chunk_buffers.
  set (st := run pre buffer_init).
  assert (buffer_inv st) as Hinv by apply buffer_run_inv, buffer_init_inv.
  destruct (buffer st) as [|x l] eqn:Hb.
  - rewrite buffer_step_append by (by left).
    rewrite flush_empty by done. simpl. rewrite Hb.
    split; [by apply (inv_empty config encode)|done].
  - rewrite buffer_step_split.
    + rewrite flush_nonempty by congruence. unfold all_buffers. simpl.
      split; [done|]. by rewrite last_snoc.
    + congruence.
    + rewrite (inv_size config encode _ Hinv). pose proof (sum_tokens_nonneg (buffer st)). lia.
Qed.

(** C2, amended.  A block whose token count alone exceeds [chunk_size] is
    the last block of its chunk: the chunk is the overlap carried over from
    the chunk before (nothing, when the block opens the document) followed
    by that block, and no later block is added to it.  When no overlap
    block is carried over, the content of the chunk is the formatted text
    of that one block, stripped. *)
Theorem oversized_block_ends_its_chunk (doc : Document) (pre post : list Block) (b : Block) :
  content_blocks doc = pre ++ b :: post ->
  chunk_size config < tokens (b_content b) ->
  let before := chunk_buffers config encode pre in
  let own := overlap (default [] (last before)) ++ [b] in
  (exists later, chunk_buffers config encode (content_blocks doc) = before ++ own :: later)
  /\ content <$> create_contextual_chunks config encode md5_hexdigest doc !! length before
     = Some (combine_blocks own)
  /\ (pre = [] -> own = [b])
  /\ (overlap (default [] (last before)) = [] ->
      content <$> create_contextual_chunks config encode md5_hexdigest doc
                    !! length before
      = Some (PyStr.strip (format_block b))).
Proof.
  intros Hdoc Hbig before own.
  assert (exists later,
    chunk_buffers config encode (content_blocks doc) = before ++ own :: later) as Hlater.
  { rewrite Hdoc. unfold chunk_buffers at 1.
    replace (pre ++ b :: post) with ((pre ++ [b]) ++ post) by (by rewrite <- app_assoc).
    rewrite fold_left_app.
    destruct (oversized_block_state pre b Hbig) as [Hclosed Hbuf].
    set (st := run (pre ++ [b]) buffer_init) in *.
    assert (buffer_inv st) as Hinv by apply buffer_run_inv, buffer_init_inv.
    fold before in Hclosed. fold before own in Hbuf.
    destruct post as [|b' post']; simpl.
    - exists []. rewrite flush_nonempty.
      + unfold all_buffers. by rewrite Hclosed, Hbuf.
      + rewrite Hbuf. unfold own. by destruct (overlap _).
    - rewrite buffer_step_split.
      + match goal with |- exists _, flush (run _ ?s) = _ =>
          destruct (closed_grows post' s) as [l1 Hl1];
          destruct (closed_prefix_flush (run post' s)) as [l2 Hl2];
          rewrite Hl2, Hl1 end.
        simpl. rewrite Hclosed, Hbuf.
        exists (l1 ++ l2). rewrite <- !app_assoc. done.
      + rewrite Hbuf. unfold own. by destruct (overlap _).
      + rewrite (inv_size config encode _ Hinv), Hbuf. unfold own.
        rewrite sum_tokens_app. simpl.
        pose proof (sum_tokens_nonneg (overlap (default [] (last before)))).
        unfold count_tokens in *. lia. }
  assert (content <$> create_contextual_chunks config encode md5_hexdigest doc
                        !! length before
          = Some (combine_blocks own)) as Hcontent.
  { destruct Hlater as [later Hlater].
    rewrite <- list_lookup_fmap, (chunk_contents doc), Hlater.
    rewrite list_lookup_fmap, lookup_app_r by lia.
    by rewrite Nat.sub_diag. }
  split; [done|]. split; [done|]. split.
  - intros ->. reflexivity.
  - intros Hnone. rewrite Hcontent. unfold own. rewrite Hnone. reflexivity.
Qed.
End ChunkerProps.

(** ** Score fusion *)

Section ODictProps.
Context {V : Type}.
Implicit Types (d : odict V) (k : string) (v : V).

Lemma od_get_set_eq k v d : od_get k (od_set k v d) = Some v.
Proof.
  induction d as [|[k' v'] d IH]; simpl.
  - by rewrite String.eqb_refl.
  - destruct (String.eqb_spec k k') as [->|Hne]; simpl.
    + by rewrite String.eqb_refl.
    + by destruct (String.eqb_spec k k').
Qed.

Lemma od_get_set_ne k k' v d : k <> k' -> od_get k' (od_set k v d) = od_get k' d.
Proof.
  intros Hne. induction d as [|[k0 v0] d IH]; simpl.
  - by destruct (String.eqb_spec k' k) as [->|].
  - destruct (String.eqb_spec k k0) as [->|Hne0]; simpl.
    + by destruct (String.eqb_spec k' k0) as [->|].
    + by rewrite IH.
Qed.

Lemma od_keys_set_some k v d :
  is_Some (od_get k d) -> od_keys (od_set k v d) = od_keys d.
Proof.
  induction d as [|[k0 v0] d IH]; simpl.
  - by intros [? ?].
  - destruct (String.eqb_spec k k0) as [->|Hne]; simpl; [done|].
    intros H. unfold od_keys in *. by rewrite IH.
Qed.

Lemma od_keys_set_none k v d :
  od_get k d = None -> od_keys (od_set k v d) = od_keys d ++ [k].
Proof.
  induction d as [|[k0 v0] d IH]; simpl; [done|].
  destruct (String.eqb_spec k k0) as [->|Hne]; simpl; [done|].
  intros H. unfold od_keys in *. by rewrite IH.
Qed.

Lemma od_get_is_Some k d : is_Some (od_get k d) <-> k ∈ od_keys d.
Proof.
  induction d as [|[k0 v0] d IH]; simpl.
  - split; [by intros [? ?]|by intros ?%elem_of_nil].
  - rewrite elem_of_cons. destruct (String.eqb_spec k k0) as [->|Hne].
    + split; [by left|by eexists].
    + rewrite IH. split; [by right|by intros [?|?]].
Qed.

Lemma od_get_None k d : od_get k d = None <-> k ∉ od_keys d.
Proof. rewrite <- od_get_is_Some, eq_None_not_Some. done. Qed.
End ODictProps.

Section FusionProps.
Variables semantic_weight keyword_weight : float.

Local Abbreviation sem_step := (add_semantic semantic_weight).
Local Abbreviation kw_step := (add_keyword keyword_weight).

Lemma find_result_None (doc_id : string) (l : list SearchResult) :
  doc_id ∉ ids l -> find_result doc_id l = None.
Proof.
  induction l as [|r l IH]; simpl; [done|].
  rewrite not_elem_of_cons. intros [Hne Hl].
  destruct (String.eqb_spec (id (chunk r)) doc_id); [done|by apply IH].
Qed.

Lemma find_result_Some (doc_id : string) (l : list SearchResult) (r : SearchResult) :
  find_result doc_id l = Some r -> r ∈ l /\ id (chunk r) = doc_id.
Proof.
  intros H. apply find_some in H as [Hin Heq].
  split; [by apply list_elem_of_In|by apply String.eqb_eq].
Qed.

Lemma find_result_is_Some (doc_id : string) (l : list SearchResult) :
  is_Some (find_result doc_id l) <-> doc_id ∈ ids l.
Proof.
  induction l as [|r l IH]; simpl.
  - split; [by intros [? ?]|by intros ?%elem_of_nil].
  - rewrite elem_of_cons. destruct (String.eqb_spec (id (chunk r)) doc_id) as [Heq|Hne].
    + split; [by left|by eexists].
    + rewrite IH. split; [by right|]. intros [?|?]; [congruence|done].
Qed.

Lemma od_keys_NoDup {V} (k : string) (v : V) (d : odict V) :
  NoDup (od_keys d) -> NoDup (od_keys (od_set k v d)).
Proof.
  intros Hnd. destruct (od_get k d) eqn:Hd.
  - rewrite od_keys_set_some; [done|by eexists].
  - rewrite od_keys_set_none by done.
    apply NoDup_app. split; [done|]. split; [|apply NoDup_singleton].
    intros x Hx ->%list_elem_of_singleton. by apply od_get_None in Hd.
Qed.

Lemma add_semantic_NoDup st r :
  NoDup (od_keys (fst st)) -> NoDup (od_keys (fst (add_semantic semantic_weight st r))).
Proof. apply od_keys_NoDup. Qed.

Lemma add_keyword_NoDup st r :
  NoDup (od_keys (fst st)) -> NoDup (od_keys (fst (add_keyword keyword_weight st r))).
Proof.
  unfold add_keyword. destruct (od_get _ (fst st)); apply od_keys_NoDup.
Qed.

Lemma fuse_scores_NoDup sem kw :
  NoDup (od_keys (fst (fuse_scores sem kw semantic_weight keyword_weight))).
Proof.
  unfold fuse_scores.
  assert (forall (step : _ -> SearchResult -> odict float * odict SearchResult) l st,
    (forall st r, NoDup (od_keys (fst st)) -> NoDup (od_keys (fst (step st r)))) ->
    NoDup (od_keys (fst st)) -> NoDup (od_keys (fst (fold_left step l st)))) as Hfold.
  { intros step l. induction l as [|r l IH]; simpl; [done|].
    intros st Hstep H. by apply IH, Hstep. }
  apply Hfold; [apply add_keyword_NoDup|].
  apply Hfold; [apply add_semantic_NoDup|]. constructor.
Qed.

Lemma aligned_get (st : odict float * odict SearchResult) (k : string) :
  aligned st -> is_Some (od_get k (fst st)) <-> is_Some (od_get k (snd st)).
Proof. intros [Hk _]. by rewrite !od_get_is_Some, Hk. Qed.

Lemma od_keys_set_same {V W} (k : string) (v : V) (w : W) (d : odict V) (e : odict W) :
  od_keys d = od_keys e -> od_keys (od_set k v d) = od_keys (od_set k w e).
Proof.
  intros Hk. destruct (od_get k d) eqn:Hd.
  - rewrite !od_keys_set_some; [done| |by eexists].
    apply od_get_is_Some. rewrite <- Hk. apply od_get_is_Some. by eexists.
  - rewrite !od_keys_set_none; [by rewrite Hk| |done].
    apply od_get_None. rewrite <- Hk. by apply od_get_None.
Qed.

Lemma add_semantic_aligned st r : aligned st -> aligned (sem_step st r).
Proof.
  intros [Hk Hid]. split; simpl.
  - by apply od_keys_set_same.
  - intros k r'. destruct (decide (id (chunk r) = k)) as [<-|Hne].
    + rewrite od_get_set_eq. congruence.
    + rewrite od_get_set_ne by done. apply Hid.
Qed.

Lemma add_keyword_aligned st r : aligned st -> aligned (kw_step st r).
Proof.
  intros Hal. pose proof Hal as [Hk Hid]. unfold add_keyword.
  destruct (od_get (id (chunk r)) (fst st)) eqn:Hc.
  - destruct (proj1 (aligned_get st (id (chunk r)) Hal)) as [r0 Hr0]; [by eexists|].
    rewrite Hr0. split; simpl.
    + by apply od_keys_set_same.
    + intros k r'. destruct (decide (id (chunk r) = k)) as [<-|Hne].
      * rewrite od_get_set_eq. intros [= <-]. simpl. by apply Hid.
      * rewrite od_get_set_ne by done. apply Hid.
  - split; simpl.
    + by apply od_keys_set_same.
    + intros k r'. destruct (decide (id (chunk r) = k)) as [<-|Hne].
      * rewrite od_get_set_eq. by intros [= <-].
      * rewrite od_get_set_ne by done. apply Hid.
Qed.

Lemma fold_aligned (step : _ -> SearchResult -> _) (l : list SearchResult) st :
  (forall st r, aligned st -> aligned (step st r)) ->
  aligned st -> aligned (fold_left step l st).
Proof.
  intros Hstep. revert st. induction l as [|r l IH]; simpl; [done|].
  intros st H. by apply IH, Hstep.
Qed.

Lemma fuse_scores_aligned sem kw :
  aligned (fuse_scores sem kw semantic_weight keyword_weight).
Proof.
  unfold fuse_scores.
  apply fold_aligned; [apply add_keyword_aligned|].
  apply fold_aligned; [apply add_semantic_aligned|]. by split.
Qed.

(** The semantic loop, key by key. *)
Lemma semantic_loop_get (sem : list SearchResult) st (k : string) :
  NoDup (ids sem) ->
  let st' := fold_left sem_step sem st in
  od_get k (fst st') =
    match find_result k sem with
    | Some s => Some (semantic_weight * score s)%float
    | None => od_get k (fst st)
    end
  /\ od_get k (snd st') =
    match find_result k sem with
    | Some s => Some s
    | None => od_get k (snd st)
    end.
Proof.
  revert st. induction sem as [|s sem IH]; intros st Hnd; simpl; [done|].
  apply NoDup_cons in Hnd as [Hs Hnd].
  destruct (IH (sem_step st s) Hnd) as [H1 H2]. simpl in H1, H2.
  rewrite H1, H2.
  destruct (String.eqb_spec (id (chunk s)) k) as [<-|Hne].
  - rewrite (find_result_None _ _ Hs). simpl. by rewrite !od_get_set_eq.
  - destruct (find_result k sem); [done|]. simpl.
    by rewrite !od_get_set_ne.
Qed.

(** The keyword loop, key by key. *)
Lemma keyword_loop_get (kw : list SearchResult) st (k : string) :
  NoDup (ids kw) -> aligned st ->
  let st' := fold_left kw_step kw st in
  od_get k (fst st') =
    match find_result k kw, od_get k (fst st) with
    | Some r, Some c => Some (c + keyword_weight * score r)%float
    | Some r, None => Some (keyword_weight * score r)%float
    | None, c => c
    end
  /\ od_get k (snd st') =
    match find_result k kw, od_get k (snd st) with
    | Some r, Some s => Some (set_relevance_type s "hybrid")
    | Some r, None => Some (set_relevance_type r "keyword")
    | None, s => s
    end.
Proof.
  revert st. induction kw as [|r kw IH]; intros st Hnd Hal; simpl.
  { by destruct (od_get k (fst st)), (od_get k (snd st)). }
  apply NoDup_cons in Hnd as [Hr Hnd].
  destruct (IH (kw_step st r) Hnd (add_keyword_aligned _ _ Hal)) as [H1 H2].
  simpl in H1, H2. rewrite H1, H2. clear H1 H2 IH.
  pose proof (aligned_get st (id (chunk r)) Hal) as Hsome.
  destruct (String.eqb_spec (id (chunk r)) k) as [<-|Hne].
  - rewrite (find_result_None _ _ Hr). unfold add_keyword.
    destruct (od_get (id (chunk r)) (fst st)) eqn:Hc.
    + destruct (proj1 Hsome) as [s Hs]; [by eexists|]. rewrite Hs. simpl.
      by rewrite !od_get_set_eq.
    + destruct (od_get (id (chunk r)) (snd st)) eqn:Hs.
      { destruct (proj2 Hsome) as [? ?]; [by eexists|done]. }
      simpl. by rewrite !od_get_set_eq.
  - assert (od_get k (fst (kw_step st r)) = od_get k (fst st)
            /\ od_get k (snd (kw_step st r)) = od_get k (snd st)) as [-> ->].
    { unfold add_keyword. destruct (od_get (id (chunk r)) (fst st)); simpl.
      - destruct (od_get (id (chunk r)) (snd st)); simpl;
          by rewrite ?od_get_set_ne.
      - by rewrite !od_get_set_ne. }
    done.
Qed.

(** Both dictionaries after the two loops, key by key. *)
Lemma fuse_scores_get (sem kw : list SearchResult) (k : string) :
  NoDup (ids sem) -> NoDup (ids kw) ->
  let st := fuse_scores sem kw semantic_weight keyword_weight in
  od_get k (fst st) =
    match find_result k sem, find_result k kw with
    | Some s, Some r => Some (semantic_weight * score s + keyword_weight * score r)%float
    | Some s, None => Some (semantic_weight * score s)%float
    | None, Some r => Some (keyword_weight * score r)%float
    | None, None => None
    end
  /\ od_get k (snd st) =
    match find_result k sem, find_result k kw with
    | Some s, Some r => Some (set_relevance_type s "hybrid")
    | Some s, None => Some s
    | None, Some r => Some (set_relevance_type r "keyword")
    | None, None => None
    end.
Proof.
  intros Hs Hk. unfold fuse_scores.
  destruct (keyword_loop_get kw (fold_left sem_step sem ([], [])) k Hk) as [H1 H2].
  { apply fold_aligned; [apply add_semantic_aligned|by split]. }
  destruct (semantic_loop_get sem ([], []) k Hs) as [H3 H4].
  simpl in *. rewrite H1, H2, H3, H4.
  by destruct (find_result k sem), (find_result k kw).
Qed.

(** What [combine_search_results] returns, in terms of the dictionaries:
    the keys in sorted order, each with its filed result and fused score. *)
Lemma combine_search_results_spec (sem kw : list SearchResult) :
  let st := fuse_scores sem kw semantic_weight keyword_weight in
  let out := combine_search_results sem kw semantic_weight keyword_weight in
  ids out = sorted_desc (score_of (fst st)) (od_keys (fst st))
  /\ Forall (fun r => exists result,
               od_get (id (chunk r)) (snd st) = Some result
               /\ r = set_score result (score_of (fst st) (id (chunk r)))) out.
Proof.
  intros st out. unfold out, combine_search_results. fold st.
  pose proof (fuse_scores_aligned sem kw) as Hal. fold st in Hal.
  assert (forall l, Forall (fun k => k ∈ od_keys (fst st)) l ->
    let out := flat_map (fun doc_id =>
                 match od_get doc_id (snd st) with
                 | Some result => [set_score result (score_of (fst st) doc_id)]
                 | None => []
                 end) l in
    ids out = l
    /\ Forall (fun r => exists result,
                 od_get (id (chunk r)) (snd st) = Some result
                 /\ r = set_score result (score_of (fst st) (id (chunk r)))) out) as Hgen.
  { induction l as [|k l IH]; intros Hl; simpl; [done|].
    apply Forall_cons in Hl as [Hk Hl]. destruct (IH Hl) as [IH1 IH2].
    destruct (proj1 (aligned_get st k Hal)) as [r Hr]; [by apply od_get_is_Some|].
    rewrite Hr. simpl. pose proof (proj2 Hal _ _ Hr) as Hid.
    split; [by rewrite Hid, IH1|].
    constructor; [|done]. simpl. rewrite Hid. by exists r. }
  apply Hgen. rewrite Forall_forall. intros k Hk.
  by rewrite sorted_desc_perm in Hk.
Qed.

(** C4.  Score fusion: the fused list holds exactly the chunk ids of the two
    result sets, each once; a chunk found by both searches gets
    [semantic_weight * semantic_score + keyword_weight * keyword_score] and
    the label [hybrid]; one found by a single search gets that search's
    weighted score alone (the missing score counts for nothing) and the
    label [semantic] or [keyword]. *)
Theorem fusion_scores_and_labels (sem kw : list SearchResult) :
  NoDup (ids sem) -> NoDup (ids kw) ->
  Forall (fun s => relevance_type s = "semantic") sem ->
  let out := combine_search_results sem kw semantic_weight keyword_weight in
  (forall doc_id, doc_id ∈ ids out <-> doc_id ∈ ids sem \/ doc_id ∈ ids kw)
  /\ NoDup (ids out)
  /\ forall r, r ∈ out ->
       match find_result (id (chunk r)) sem, find_result (id (chunk r)) kw with
       | Some s, Some k =>
           score r = (semantic_weight * score s + keyword_weight * score k)%float
           /\ relevance_type r = "hybrid" /\ chunk r = chunk s
       | Some s, None =>
           score r = (semantic_weight * score s)%float
           /\ relevance_type r = "semantic" /\ chunk r = chunk s
       | None, Some k =>
           score r = (keyword_weight * score k)%float
           /\ relevance_type r = "keyword" /\ chunk r = chunk k
       | None, None => False
       end.
Proof.
  intros Hs Hk Hlabel out.
  destruct (combine_search_results_spec sem kw) as [Hids Hout].
  fold out in Hids, Hout.
  set (st := fuse_scores sem kw semantic_weight keyword_weight) in *.
  split; [|split].
  - intros doc_id. rewrite Hids, sorted_desc_perm, <- od_get_is_Some.
    destruct (fuse_scores_get sem kw doc_id Hs Hk) as [Hc _].
    fold st in Hc. rewrite Hc.
    rewrite <- !find_result_is_Some.
    destruct (find_result doc_id sem), (find_result doc_id kw); split;
      try (by intros [?|?]); try (by intros [? ?]); eauto.
  - rewrite Hids, sorted_desc_perm. apply fuse_scores_NoDup.
  - intros r Hr. rewrite Forall_forall in Hout.
    destruct (Hout r Hr) as (result & Hget & Heq).
    destruct (fuse_scores_get sem kw (id (chunk r)) Hs Hk) as [Hc Ha].
    fold st in Hc, Ha. unfold score_of in Heq. rewrite Hc in Heq. rewrite Ha in Hget.
    destruct (find_result (id (chunk r)) sem) as [s|] eqn:Hfs,
             (find_result (id (chunk r)) kw) as [k|] eqn:Hfk;
      try done; injection Hget as <-; rewrite Heq; simpl; try done.
    split; [done|]. split; [|done].
    apply find_result_Some in Hfs as [Hin _].
    rewrite Forall_forall in Hlabel. by apply Hlabel.
Qed.
End FusionProps.

(** ** Ranking *)

Lemma StronglySorted_take {A} (R : A -> A -> Prop) (n : nat) (l : list A) :
  StronglySorted R l -> StronglySorted R (take n l).
Proof.
  intros Hs. revert n. induction Hs as [|x l Hs IH Hall]; intros [|n]; simpl;
    try constructor; [by apply IH|].
  rewrite Forall_forall in *. intros y Hy. apply Hall.
  by eapply (subseteq_take n l).
Qed.

Lemma slice_to_take {A} (k : Z) (l : list A) : exists n, PyStr.slice_to k l = take n l.
Proof. unfold PyStr.slice_to. destruct (0 <=? k); by eexists. Qed.

Section RankingProps.
Variable config : Config.
Variable Store : Type.
Variable Embedding : Type.
Variable embed : string -> Result Embedding.
Variable index : IndexOps Store Embedding.
Variable keyword_search : Store -> string -> Z -> Result (list SearchResult).

Local Abbreviation retrieve_with :=
  (retrieve_context_with config Store Embedding embed index keyword_search).
Local Abbreviation retrieve :=
  (retrieve_context config Store Embedding embed index keyword_search).
Local Abbreviation hybrid :=
  (hybrid_search Store Embedding embed index keyword_search).
Local Abbreviation not_below a b := (PrimFloat.ltb (score a) (score b) = false).

(** C5, amended.  The hit list retrieval returns is the first [max_chunks]
    entries of the stable descending sort, by final score, of the boosted
    candidates that passed the threshold: no hit scores below a later one,
    and hits with equal scores keep the order in which hybrid search
    delivered them.  No comparison of chunk ids takes part, and the list is
    a function of the search results, the weights and the configuration. *)
Theorem ranked_hits_order (sys : RAGSystem Store) (question context_type : string)
    (max_chunks : Z) (fused : list SearchResult) :
  hybrid (vector_store Store sys) question (max_chunks * 2) 0.7%float 0.3%float
    = Ok fused ->
  Forall (fun r => PrimFloat.is_nan (score r) = false)
    (filter_and_rank_results config fused question
       (resolve_context_type question context_type)
       (create_search_filters question (resolve_context_type question context_type))) ->
  let boosted :=
    map (boost (resolve_context_type question context_type))
      (List.filter (fun r => PrimFloat.leb (similarity_threshold config) (score r))
         fused) in
  let ranked := sorted_desc score boosted in
  retrieve sys question max_chunks context_type = Ok (PyStr.slice_to max_chunks ranked)
  /\ Permutation ranked boosted
  /\ StronglySorted (fun a b => not_below a b) ranked
  /\ StronglySorted (fun a b => not_below a b) (PyStr.slice_to max_chunks ranked)
  /\ forall v,
       List.filter (fun r => PrimFloat.eqb (score r) v) ranked
       = List.filter (fun r => PrimFloat.eqb (score r) v) boosted.
Proof.
  intros Hh Hnan boosted ranked.
  assert (StronglySorted (fun a b => not_below a b) ranked) as Hsorted.
  { apply sorted_desc_sorted.
    unfold filter_and_rank_results in Hnan. fold boosted in Hnan.
    by rewrite sorted_desc_perm in Hnan. }
  split; [|split; [|split; [|split]]].
  - unfold retrieve_context, retrieve_context_with. by rewrite Hh.
  - apply sorted_desc_perm.
  - done.
  - destruct (slice_to_take max_chunks ranked) as [n ->].
    by apply StronglySorted_take.
  - intros v. apply sorted_desc_stable.
    intros a b Ha Hb. by apply (eqb_tie _ _ v).
Qed.

(** C10.  The filters built for the context type never reach the ranking:
    retrieval returns the same list whatever mapping stands in for
    [create_search_filters], and [filter_and_rank_results] returns the same
    list for any two [filters] arguments. *)
Theorem filters_have_no_effect (filters_for filters_for' : string -> string -> Filters)
    (sys : RAGSystem Store) (question context_type : string) (max_chunks : Z)
    (results : list SearchResult) (filters filters' : Filters) :
  retrieve_with filters_for sys question max_chunks context_type
    = retrieve_with filters_for' sys question max_chunks context_type
  /\ retrieve sys question max_chunks context_type
    = retrieve_with (fun _ _ => no_filters) sys question max_chunks context_type
  /\ filter_and_rank_results config results question context_type filters
    = filter_and_rank_results config results question context_type filters'.
Proof. repeat split. Qed.

End RankingProps.

(** What the boosting loop does for each context type. *)
Lemma boost_api (r : SearchResult) :
  boost "api" r = if mem "api" (content_types (metadata (chunk r)))
                  then set_score r (score r * 1.2)%float else r.
Proof. unfold boost. simpl. by destruct (mem "api" _). Qed.

Lemma boost_tutorial (r : SearchResult) :
  boost "tutorial" r = if mem "code" (content_types (metadata (chunk r)))
                       then set_score r (score r * 1.2)%float else r.
Proof. unfold boost. simpl. by destruct (mem "code" _). Qed.

Lemma boost_troubleshooting (r : SearchResult) :
  boost "troubleshooting" r
  = if mem "troubleshooting" (content_types (metadata (chunk r)))
    then set_score r (score r * 1.2)%float else r.
Proof. unfold boost. simpl. by destruct (mem "troubleshooting" _). Qed.

Lemma boost_setup (r : SearchResult) : boost "setup" r = r.
Proof. reflexivity. Qed.

(** ** The response cache and the query path *)

Section CacheProps.
Variable config : Config.
Variable encode : string -> list Z.
Variable md5_hexdigest : string -> string.
Variable Store : Type.
Variable Embedding : Type.
Variable embed : string -> Result Embedding.
Variable index : IndexOps Store Embedding.
Variable keyword_search : Store -> string -> Z -> Result (list SearchResult).
Variable index_documents : Store -> list DocumentChunk -> Result Store.
Variable generate_response : string -> list SearchResult -> Result RAGResponse.

Local Abbreviation System := (RAGSystem Store).
Local Abbreviation key_for := (create_cache_key md5_hexdigest).
Local Abbreviation store_response := (cache_response Store).
Local Abbreviation lookup := (cache_lookup config Store).
Local Abbreviation run_query :=
  (query config md5_hexdigest Store Embedding embed index keyword_search
     generate_response).
Local Abbreviation answer :=
  (answer_query config md5_hexdigest Store Embedding embed index keyword_search
     generate_response).
Local Abbreviation retrieve :=
  (retrieve_context config Store Embedding embed index keyword_search).
Local Abbreviation reindex :=
  (index_documentation config encode md5_hexdigest Store index_documents).

Lemma cache_lookup_fresh (sys : System) (cache_key : string) (r : RAGResponse)
    (T now : Z) :
  lookup (store_response sys cache_key r T) cache_key now
  = if now - T <? timedelta_hours (cache_ttl_hours config) then Some r else None.
Proof.
  unfold cache_lookup, cache_response. simpl.
  rewrite lookup_insert_eq. reflexivity.
Qed.

(** The answer computed on a miss does not read the cache. *)
Lemma answer_query_ignores_cache (sys sys' : System) question context_type
    max_chunks use_cache stream now_store elapsed :
  vector_store Store sys = vector_store Store sys' ->
  match answer sys question context_type max_chunks use_cache stream now_store elapsed,
        answer sys' question context_type max_chunks use_cache stream now_store elapsed
  with
  | Ok out, Ok out' => fst out = fst out'
  | Raise e, Raise e' => e = e'
  | _, _ => False
  end.
Proof.
  intros Hvs. unfold answer_query, retrieve_context, retrieve_context_with.
  rewrite Hvs.
  destruct (hybrid_search _ _ _ _ _ _ _ _ _ _) as [fused|e]; simpl; [|done].
  destruct stream; simpl; [done|].
  destruct (generate_response _ _); simpl; done.
Qed.

(** C7.  Cache TTL: an entry written at time [T] is returned by a lookup of
    the same key at any time strictly before [T + ttl] (the query answers
    with it and counts a cache hit), and at any time from [T + ttl] on the
    lookup misses: the query computes its answer afresh, whatever response
    was stored. *)
Theorem cache_entry_ttl (sys : System) (question context_type : string)
    (max_chunks : Z) (r : RAGResponse) (T before after now_store : Z)
    (elapsed : float) (stream : bool) :
  before < T + timedelta_hours (cache_ttl_hours config) ->
  T + timedelta_hours (cache_ttl_hours config) <= after ->
  let cache_key := key_for question context_type max_chunks in
  let written := store_response sys cache_key r T in
  lookup written cache_key before = Some r
  /\ run_query written question context_type max_chunks true stream
       before now_store elapsed
     = (Response r, add_cache_hit Store written)
  /\ lookup written cache_key after = None
  /\ forall r',
       fst (run_query written question context_type max_chunks true stream
              after now_store elapsed)
       = fst (run_query (store_response sys cache_key r' T) question context_type
                max_chunks true stream after now_store elapsed).
Proof.
  intros Hbefore Hafter cache_key written.
  assert (lookup written cache_key before = Some r) as Hhit.
  { unfold written. rewrite cache_lookup_fresh.
    destruct (Z.ltb_spec (before - T) (timedelta_hours (cache_ttl_hours config)));
      [done|lia]. }
  assert (forall r0, lookup (store_response sys cache_key r0 T) cache_key after = None)
    as Hmiss.
  { intros r0. rewrite cache_lookup_fresh.
    destruct (Z.ltb_spec (after - T) (timedelta_hours (cache_ttl_hours config)));
      [lia|done]. }
  split; [done|]. split.
  - unfold query. fold cache_key. by rewrite Hhit.
  - split; [apply Hmiss|]. intros r'. unfold query. fold cache_key.
    unfold written. rewrite !Hmiss.
    pose proof (answer_query_ignores_cache
      (store_response sys cache_key r T) (store_response sys cache_key r' T)
      question context_type max_chunks true stream now_store elapsed eq_refl) as H.
    destruct (answer (store_response sys cache_key r T) _ _ _ _ _ _ _),
             (answer (store_response sys cache_key r' T) _ _ _ _ _ _ _);
      simpl; try done. by subst.
Qed.

(** C8, amended.  An index rebuild leaves the response cache as it was:
    every entry present before [index_documentation] is present after it
    with the same response and timestamp, so a lookup hits after the
    rebuild exactly when it would have hit before; entries leave the cache
    through their TTL only. *)
Theorem index_rebuild_keeps_cache (sys sys' : System) (files : list (Result Document)) :
  reindex sys files = Ok sys' ->
  cache Store sys' = cache Store sys
  /\ forall cache_key now, lookup sys' cache_key now = lookup sys cache_key now.
Proof.
  unfold index_documentation. intros H.
  assert (cache Store sys' = cache Store sys) as Hc.
  { destruct (is_empty _); [by injection H as <-|].
    destruct (index_documents _ _); simpl in H; [|done].
    by injection H as <-. }
  split; [done|]. intros cache_key now. unfold cache_lookup. by rewrite Hc.
Qed.

(** C9, amended.  When the embedding provider raises on a query, the
    exception leaves [search], [hybrid_search] and [retrieve_context]
    unhandled (the keyword search is not consulted), and a query that
    misses the cache answers with the error response: no sources, zero
    confidence, the state unchanged. *)
Theorem embedding_failure_is_error_response (sys : System)
    (question context_type message : string) (max_chunks : Z)
    (use_cache stream : bool) (now now_store : Z) (elapsed : float) :
  embed question = Raise message ->
  (if use_cache
   then lookup sys (key_for question context_type max_chunks) now
   else None) = None ->
  (forall store top_k filters,
     search Store Embedding embed index store question top_k filters
     = Raise message)
  /\ (forall store top_k w1 w2,
        hybrid_search Store Embedding embed index keyword_search
          store question top_k w1 w2 = Raise message)
  /\ retrieve sys question max_chunks context_type = Raise message
  /\ run_query sys question context_type max_chunks use_cache stream
       now now_store elapsed
     = (Response (error_response question message elapsed), sys)
  /\ sources (error_response question message elapsed) = []
  /\ confidence (error_response question message elapsed) = 0%float.
Proof.
  intros He Hmiss.
  assert (forall store top_k filters,
     search Store Embedding embed index store question top_k filters
     = Raise message) as Hsearch.
  { intros. unfold search. by rewrite He. }
  assert (forall store top_k w1 w2,
        hybrid_search Store Embedding embed index keyword_search
          store question top_k w1 w2 = Raise message) as Hhybrid.
  { intros. unfold hybrid_search. by rewrite Hsearch. }
  assert (retrieve sys question max_chunks context_type = Raise message) as Hret.
  { unfold retrieve_context, retrieve_context_with. by rewrite Hhybrid. }
  repeat split; try done.
  unfold query. rewrite Hmiss. unfold answer_query. by rewrite Hret.
Qed.

End CacheProps.

(** ** The properties at concrete inputs *)

(** C1, counterexample.  With a 10-token limit and no overlap, the blocks
    of 5, 5 and 1 tokens give a first chunk closed by the size check that
    holds two blocks, neither oversized, and whose combined content (the
    two texts and the newline joining them) has 11 tokens. *)
Lemma chunk_token_bound_fails :
  let config := small_config 10 0 in
  let doc := doc_of [text_block "aaaaa"; text_block "bbbbb"; text_block "c"] in
  ~ (forall k buf c,
       chunk_buffers config char_tokens (content_blocks doc) !! k = Some buf ->
       create_contextual_chunks config char_tokens plain_digest doc !! k = Some c ->
       (S k < length (chunk_buffers config char_tokens (content_blocks doc)))%nat ->
       ~ (exists b, buf = [b]
                    /\ chunk_size config < count_tokens char_tokens (b_content b)) ->
       count_tokens char_tokens (content c) <= chunk_size config).
Proof.
  intros config doc H.
  assert (exists c, create_contextual_chunks config char_tokens plain_digest doc !! 0%nat
                    = Some c
                    /\ count_tokens char_tokens (content c) = 11) as (c & Hc & Hn).
  { eexists. split; vm_compute; reflexivity. }
  specialize (H 0%nat [text_block "aaaaa"; text_block "bbbbb"] c eq_refl Hc).
  rewrite Hn in H. simpl in H.
  assert (11 <= 10); [|lia].
  apply H; [vm_compute; lia|]. by intros (b & Hb & _).
Qed.

Lemma chunk_block_tokens_bound_witness :
  let config := small_config 10 0 in
  let doc := doc_of [text_block "aaaaa"; text_block "bbbbb"; text_block "c"] in
  exists blocks,
    chunk_buffers config char_tokens (content_blocks doc) !! 0%nat = Some blocks
    /\ "aaaaa" +:+ PyStr.nl +:+ "bbbbb" = combine_blocks blocks
    /\ (sum_tokens char_tokens blocks <= chunk_size config
        \/ exists b,
             blocks = prev_overlap config char_tokens
                        (chunk_buffers config char_tokens (content_blocks doc)) 0
                      ++ [b]).
Proof.
  apply (chunk_block_tokens_bound (small_config 10 0) char_tokens plain_digest
           (doc_of [text_block "aaaaa"; text_block "bbbbb"; text_block "c"]) 0
           (create_chunk char_tokens "docs/gui_000"
              ("aaaaa" +:+ PyStr.nl +:+ "bbbbb")
              (doc_of [text_block "aaaaa"; text_block "bbbbb"; text_block "c"]) None)).
  reflexivity.
Defined.

(** C2, counterexample.  With a 10-token limit and a 4-token overlap, a
    12-token block that follows a 4-token block is emitted behind that
    block, carried over as overlap: no chunk holds the oversized block
    alone. *)
Lemma oversized_block_not_alone :
  let config := small_config 10 4 in
  let doc := doc_of [text_block "aaaa"; text_block "bbbbbbbbbbbb"] in
  ~ (forall b, In b (content_blocks doc) ->
       chunk_size config < count_tokens char_tokens (b_content b) ->
       exists c, In c (create_contextual_chunks config char_tokens plain_digest doc)
                 /\ content c = combine_blocks [b]).
Proof.
  intros config doc H.
  destruct (H (text_block "bbbbbbbbbbbb")) as (c & Hin & Hc).
  - right. by left.
  - vm_compute. reflexivity.
  - vm_compute in Hin. destruct Hin as [<-|[<-|[]]]; vm_compute in Hc; discriminate.
Qed.

Lemma oversized_block_ends_its_chunk_witness :
  let config := small_config 10 4 in
  let doc := doc_of [text_block "aaaa"; text_block "bbbbbbbbbbbb"] in
  let before := chunk_buffers config char_tokens [text_block "aaaa"] in
  let own := get_overlap_blocks config char_tokens (default [] (last before))
               ++ [text_block "bbbbbbbbbbbb"] in
  (exists later, chunk_buffers config char_tokens (content_blocks doc)
                 = before ++ own :: later)
  /\ content <$> create_contextual_chunks config char_tokens plain_digest doc
                   !! length before
     = Some (combine_blocks own)
  /\ ([text_block "aaaa"] = [] -> own = [text_block "bbbbbbbbbbbb"])
  /\ (get_overlap_blocks config char_tokens (default [] (last before)) = [] ->
      content <$> create_contextual_chunks config char_tokens plain_digest doc
                    !! length before
      = Some (PyStr.strip (format_block (text_block "bbbbbbbbbbbb")))).
Proof.
  apply (oversized_block_ends_its_chunk (small_config 10 4) char_tokens plain_digest
           (doc_of [text_block "aaaa"; text_block "bbbbbbbbbbbb"])
           [text_block "aaaa"] [] (text_block "bbbbbbbbbbbb")).
  - reflexivity.
  - vm_compute. reflexivity.
Defined.

(** A carried-over overlap need not show in the text: an empty list block
    costs no token, is carried over, and formats to whitespace that
    [strip] removes, so the chunk of the oversized block reads as that
    block alone although its buffer holds two blocks. *)
Example oversized_block_after_blank_overlap :
  let config := small_config 10 4 in
  let blank := {| type := "list"; b_content := ""; language := None;
                  b_section := None; level := None |} in
  let doc := doc_of [blank; text_block "bbbbbbbbbbbb"] in
  get_overlap_blocks config char_tokens [blank] = [blank]
  /\ chunk_buffers config char_tokens (content_blocks doc)
     = [[blank]; [blank; text_block "bbbbbbbbbbbb"]]
  /\ content <$> create_contextual_chunks config char_tokens plain_digest doc !! 1%nat
     = Some "bbbbbbbbbbbb".
Proof. vm_compute. repeat split. Qed.

Lemma overlap_correctness_witness :
  let config := small_config 10 4 in
  let doc := doc_of [text_block "aaaaaa"; text_block "bbbb"; text_block "cccccc"] in
  let this := [text_block "aaaaaa"; text_block "bbbb"] in
  let next := [text_block "bbbb"; text_block "cccccc"] in
  content <$> create_contextual_chunks config char_tokens plain_digest doc !! 0%nat
    = Some (combine_blocks this)
  /\ content <$> create_contextual_chunks config char_tokens plain_digest doc !! 1%nat
    = Some (combine_blocks next)
  /\ get_overlap_blocks config char_tokens this `suffix_of` this
  /\ sum_tokens char_tokens (get_overlap_blocks config char_tokens this)
     <= chunk_overlap config
  /\ exists rest, rest <> [] /\ next = get_overlap_blocks config char_tokens this ++ rest.
Proof.
  apply (overlap_correctness (small_config 10 4) char_tokens plain_digest
           (doc_of [text_block "aaaaaa"; text_block "bbbb"; text_block "cccccc"])
           0 [text_block "aaaaaa"; text_block "bbbb"]
           [text_block "bbbb"; text_block "cccccc"]).
  - vm_compute. discriminate.
  - reflexivity.
  - reflexivity.
Defined.

Lemma fusion_scores_and_labels_witness :
  let sem := [hit "a" 0.9%float ["api"] "semantic"] in
  let kw := [hit "a" 0.5%float ["api"] "keyword"; hit "b" 0.4%float [] "keyword"] in
  let out := combine_search_results sem kw 0.7%float 0.3%float in
  (forall doc_id, doc_id ∈ ids out <-> doc_id ∈ ids sem \/ doc_id ∈ ids kw)
  /\ NoDup (ids out)
  /\ forall r, r ∈ out ->
       match find_result (id (chunk r)) sem, find_result (id (chunk r)) kw with
       | Some s, Some k =>
           score r = (0.7 * score s + 0.3 * score k)%float
           /\ relevance_type r = "hybrid" /\ chunk r = chunk s
       | Some s, None =>
           score r = (0.7 * score s)%float
           /\ relevance_type r = "semantic" /\ chunk r = chunk s
       | None, Some k =>
           score r = (0.3 * score k)%float
           /\ relevance_type r = "keyword" /\ chunk r = chunk k
       | None, None => False
       end.
Proof.
  apply (fusion_scores_and_labels 0.7%float 0.3%float
           [hit "a" 0.9%float ["api"] "semantic"]
           [hit "a" 0.5%float ["api"] "keyword"; hit "b" 0.4%float [] "keyword"]).
  - apply (bool_decide_unpack _). vm_compute. reflexivity.
  - apply (bool_decide_unpack _). vm_compute. reflexivity.
  - repeat constructor.
Defined.

Example fusion_example :
  combine_search_results
    [hit "a" 0.9%float ["api"] "semantic"]
    [hit "a" 0.5%float ["api"] "keyword"; hit "b" 0.4%float [] "keyword"]
    0.7%float 0.3%float
  = [hit "a" (0.7 * 0.9 + 0.3 * 0.5)%float ["api"] "hybrid";
     hit "b" (0.3 * 0.4)%float [] "keyword"].
Proof. vm_compute. reflexivity. Qed.

(** C5, counterexample.  Two chunks, ["b"] then ["a"], are found by both
    searches with the same scores.  They tie on the final score, and the
    hit list keeps ["b"] first: the tie is not broken by ascending chunk
    id. *)
Lemma tie_order_not_by_chunk_id :
  let found := [hit "b" 1%float [] "semantic"; hit "a" 1%float [] "semantic"] in
  let matched := [hit "b" 1%float [] "keyword"; hit "a" 1%float [] "keyword"] in
  ~ (forall hits,
       retrieve_context CONFIG unit unit embed_ok
         (fixed_index found) (fixed_keywords matched)
         empty_system "what is a tenant" 5 "general" = Ok hits ->
       forall i a b, hits !! i = Some a -> hits !! S i = Some b ->
         PrimFloat.ltb (score b) (score a) = true
         \/ (PrimFloat.eqb (score a) (score b) = true
             /\ String.ltb (id (chunk a)) (id (chunk b)) = true)).
Proof.
  intros found matched H.
  specialize (H _ eq_refl 0%nat _ _ eq_refl eq_refl).
  vm_compute in H. destruct H as [H|[_ H]]; discriminate.
Qed.

Lemma ranked_hits_order_witness :
  let found := [hit "b" 1%float [] "semantic"; hit "a" 1%float [] "semantic"] in
  let matched := [hit "b" 1%float [] "keyword"; hit "a" 1%float [] "keyword"] in
  let tied := [hit "b" (0.7 * 1 + 0.3 * 1)%float [] "hybrid";
               hit "a" (0.7 * 1 + 0.3 * 1)%float [] "hybrid"] in
  let boosted :=
    map (boost (resolve_context_type "what is a tenant" "general"))
      (List.filter (fun r => PrimFloat.leb (similarity_threshold CONFIG) (score r))
         tied) in
  let ranked := sorted_desc score boosted in
  retrieve_context CONFIG unit unit embed_ok (fixed_index found)
    (fixed_keywords matched) empty_system "what is a tenant" 5 "general"
  = Ok (PyStr.slice_to 5 ranked)
  /\ Permutation ranked boosted
  /\ StronglySorted (fun a b => PrimFloat.ltb (score a) (score b) = false) ranked
  /\ StronglySorted (fun a b => PrimFloat.ltb (score a) (score b) = false)
       (PyStr.slice_to 5 ranked)
  /\ forall v,
       List.filter (fun r => PrimFloat.eqb (score r) v) ranked
       = List.filter (fun r => PrimFloat.eqb (score r) v) boosted.
Proof.
  apply (ranked_hits_order CONFIG unit unit embed_ok
           (fixed_index [hit "b" 1%float [] "semantic"; hit "a" 1%float [] "semantic"])
           (fixed_keywords [hit "b" 1%float [] "keyword"; hit "a" 1%float [] "keyword"])
           empty_system "what is a tenant" "general" 5
           [hit "b" (0.7 * 1 + 0.3 * 1)%float [] "hybrid";
            hit "a" (0.7 * 1 + 0.3 * 1)%float [] "hybrid"]).
  - vm_compute. reflexivity.
  - vm_compute. repeat constructor.
Defined.

(** C6, the code at the failing inputs.  For a [setup] question a surviving
    hit tagged [setup] keeps its score, and for a [tutorial] question a hit
    tagged [tutorial] (without [code]) keeps its score, where the expected
    tag sets of [create_search_filters] call for a boost by 1.2. *)
Lemma setup_hit_is_not_boosted :
  filter_content_types (create_search_filters "how do I install it" "setup")
    = Some ["setup"]
  /\ filter_and_rank_results CONFIG [hit "s" 0.8%float ["setup"] "hybrid"]
       "how do I install it" "setup"
       (create_search_filters "how do I install it" "setup")
     = [hit "s" 0.8%float ["setup"] "hybrid"]
  /\ (0.8 * 1.2)%float <> 0.8%float
  /\ filter_content_types (create_search_filters "show an example" "tutorial")
     = Some ["tutorial"; "code"]
  /\ filter_and_rank_results CONFIG [hit "t" 0.8%float ["tutorial"] "hybrid"]
       "show an example" "tutorial"
       (create_search_filters "show an example" "tutorial")
     = [hit "t" 0.8%float ["tutorial"] "hybrid"]
  /\ filter_and_rank_results CONFIG [hit "p" 0.8%float ["api"] "hybrid"]
       "which endpoint" "api" (create_search_filters "which endpoint" "api")
     = [hit "p" (0.8 * 1.2)%float ["api"] "hybrid"].
Proof. repeat split; vm_compute; (reflexivity || discriminate). Qed.

Lemma cache_entry_ttl_witness :
  let cache_key := create_cache_key plain_digest "how to log in" "auto" 5 in
  let written := cache_response unit empty_system cache_key stored_response 0 in
  cache_lookup CONFIG unit written cache_key (one_day - 1) = Some stored_response
  /\ query CONFIG plain_digest unit unit embed_ok (fixed_index [])
       (fixed_keywords []) generate_plain written "how to log in" "auto" 5
       true false (one_day - 1) one_day 0%float
     = (Response stored_response, add_cache_hit unit written)
  /\ cache_lookup CONFIG unit written cache_key one_day = None
  /\ forall r',
       fst (query CONFIG plain_digest unit unit embed_ok (fixed_index [])
              (fixed_keywords []) generate_plain written "how to log in" "auto" 5
              true false one_day one_day 0%float)
       = fst (query CONFIG plain_digest unit unit embed_ok (fixed_index [])
                (fixed_keywords []) generate_plain
                (cache_response unit empty_system cache_key r' 0)
                "how to log in" "auto" 5 true false one_day one_day 0%float).
Proof.
  apply (cache_entry_ttl CONFIG plain_digest unit unit embed_ok
           (fixed_index []) (fixed_keywords []) generate_plain
           empty_system "how to log in" "auto" 5 stored_response 0
           (one_day - 1) one_day one_day 0%float false).
  - vm_compute. reflexivity.
  - vm_compute. discriminate.
Defined.

(** C8, counterexample.  A response is cached at time 0; the documentation
    is then re-indexed, one document giving one chunk; an hour after the
    entry was written a lookup of its key still returns the cached
    response. *)
Lemma cache_hit_after_rebuild :
  let cache_key := create_cache_key plain_digest "how to log in" "auto" 5 in
  let before := cache_response unit empty_system cache_key stored_response 0 in
  let files := [Ok (doc_of [text_block "Log in with your email."])] in
  ~ (forall after,
       index_documentation CONFIG char_tokens plain_digest unit reindex_ok
         before files = Ok after ->
       forall k now, is_Some (cache unit before !! k) ->
                     cache_lookup CONFIG unit after k now = None).
Proof.
  intros cache_key before files H.
  specialize (H _ eq_refl cache_key one_hour).
  assert (is_Some (cache unit before !! cache_key)) as Hin.
  { unfold before, cache_response. simpl. rewrite lookup_insert_eq. by eexists. }
  specialize (H Hin). vm_compute in H. discriminate.
Qed.

Lemma index_rebuild_keeps_cache_witness :
  let cache_key := create_cache_key plain_digest "how to log in" "auto" 5 in
  let before := cache_response unit empty_system cache_key stored_response 0 in
  let after := {| vector_store := tt; cache := cache unit before;
                  metrics := metrics unit before |} in
  cache unit after = cache unit before
  /\ forall k now, cache_lookup CONFIG unit after k now
                   = cache_lookup CONFIG unit before k now.
Proof.
  apply (index_rebuild_keeps_cache CONFIG char_tokens plain_digest unit reindex_ok
           (cache_response unit empty_system
              (create_cache_key plain_digest "how to log in" "auto" 5)
              stored_response 0)
           _ [Ok (doc_of [text_block "Log in with your email."])]).
  reflexivity.
Defined.

(** C9, counterexample.  The embedding provider raises; the keyword search
    alone would return one hit above the threshold.  Retrieval returns no
    ranking at all, and the query answers with the error response. *)
Lemma no_keyword_fallback :
  let matched := [hit "a" 3%float [] "keyword"] in
  let keyword_only :=
    filter_and_rank_results CONFIG
      (combine_search_results [] matched 0.7%float 0.3%float)
      "how to log in" "general" no_filters in
  ~ (forall now now_store elapsed,
       retrieve_context CONFIG unit unit embed_down (fixed_index [])
         (fixed_keywords matched) empty_system "how to log in" 5 "general"
       = Ok keyword_only
       /\ exists r, fst (query CONFIG plain_digest unit unit embed_down
                           (fixed_index []) (fixed_keywords matched)
                           generate_plain empty_system "how to log in" "general" 5
                           true false now now_store elapsed) = Response r
                    /\ answer r = "generated").
Proof.
  intros matched keyword_only H.
  destruct (H 0 0 0%float) as [H1 _]. vm_compute in H1. discriminate.
Qed.

Example keyword_only_ranking :
  filter_and_rank_results CONFIG
    (combine_search_results [] [hit "a" 3%float [] "keyword"] 0.7%float 0.3%float)
    "how to log in" "general" no_filters
  = [hit "a" (0.3 * 3)%float [] "keyword"].
Proof. vm_compute. reflexivity. Qed.

Example embedding_failure_example :
  query CONFIG plain_digest unit unit embed_down (fixed_index [])
    (fixed_keywords [hit "a" 3%float [] "keyword"]) generate_plain empty_system
    "how to log in" "general" 5 true false 0 0 0%float
  = (Response (error_response "how to log in" "embedding provider unavailable" 0%float),
     empty_system).
Proof. vm_compute. reflexivity. Qed.

Lemma embedding_failure_is_error_response_witness :
  let matched := [hit "a" 3%float [] "keyword"] in
  (forall store top_k filters,
     search unit unit embed_down (fixed_index []) store "how to log in"
       top_k filters = Raise "embedding provider unavailable")
  /\ (forall store top_k w1 w2,
        hybrid_search unit unit embed_down (fixed_index [])
          (fixed_keywords matched) store "how to log in" top_k w1 w2
        = Raise "embedding provider unavailable")
  /\ retrieve_context CONFIG unit unit embed_down (fixed_index [])
       (fixed_keywords matched) empty_system "how to log in" 5 "general"
     = Raise "embedding provider unavailable"
  /\ query CONFIG plain_digest unit unit embed_down (fixed_index [])
       (fixed_keywords matched) generate_plain empty_system
       "how to log in" "general" 5 true false 0 0 0%float
     = (Response (error_response "how to log in"
                    "embedding provider unavailable" 0%float), empty_system)
  /\ sources (error_response "how to log in"
                "embedding provider unavailable" 0%float) = []
  /\ confidence (error_response "how to log in"
                   "embedding provider unavailable" 0%float) = 0%float.
Proof.
  apply (embedding_failure_is_error_response CONFIG plain_digest unit unit embed_down
           (fixed_index []) (fixed_keywords [hit "a" 3%float [] "keyword"])
           generate_plain empty_system "how to log in" "general"
           "embedding provider unavailable" 5 true false 0 0 0%float).
  - reflexivity.
  - reflexivity.
Defined.

(** * Further properties *)

(** ** The chunker: coverage, counts and identifiers *)

Section ChunkerCoverage.
Variable config : Config.
Variable encode : string -> list Z.
Variable md5_hexdigest : string -> string.

Local Abbreviation overlap := (get_overlap_blocks config encode).
Local Abbreviation step := (buffer_step config encode).
Local Abbreviation run := (fold_left step).
Local Abbreviation buffers := (chunk_buffers config encode).
Local Abbreviation carried := (prev_overlap config encode).
Local Abbreviation chunks_of := (create_contextual_chunks config encode md5_hexdigest).

Local Abbreviation covers := (covers config encode).

Lemma covers_init : covers [] buffer_init.
Proof.
  exists [], []. simpl. repeat split; done.
Qed.

Lemma covers_step (read : list Block) (st : BufferState) (block : Block) :
  covers read st -> covers (read ++ [block]) (step st block).
Proof.
  intros (fc & fb & Hcat & Hlen & Hne & Hnil & Hclosed & Hbuf).
  destruct (buffer_step_cases config encode st block) as [[Hbne Hgt]|Happ].
  - rewrite (buffer_step_split config encode _ _ Hbne Hgt).
    exists (fc ++ [fb]), [block]. simpl.
    assert (fb <> []) as Hfb by (intros H; by destruct (Hnil H)).
    repeat split.
    + rewrite concat_app. simpl. rewrite app_nil_r, <- Hcat. by rewrite <- app_assoc.
    + rewrite !length_app. simpl. lia.
    + apply Forall_app. split; [done|]. by constructor.
    + done.
    + done.
    + intros k buf Hk.
      destruct (decide (k < length (closed st))%nat) as [Hlt|Hge].
      * rewrite lookup_app_l in Hk by done.
        destruct (Hclosed k buf Hk) as (f & Hf & Heq).
        exists f. split; [by rewrite lookup_app_l by lia|].
        by rewrite prev_overlap_app by lia.
      * rewrite lookup_app_r in Hk by lia.
        apply list_lookup_singleton_Some in Hk as [Hk <-].
        assert (k = length (closed st)) as -> by lia.
        exists fb. split.
        -- rewrite lookup_app_r by lia. by rewrite Hlen, Nat.sub_diag.
        -- by rewrite prev_overlap_app by lia.
    + rewrite length_app. simpl.
      replace (length (closed st) + 1)%nat with (S (length (closed st))) by lia.
      rewrite <- (app_nil_r (closed st ++ [buffer st])).
      by rewrite prev_overlap_last.
  - rewrite (buffer_step_append config encode _ _ Happ).
    exists fc, (fb ++ [block]). simpl.
    split; [by rewrite app_assoc, Hcat|]. split; [done|]. split; [done|].
    split; [intros H0; by apply app_eq_nil in H0 as [_ ?]|].
    split; [done|]. by rewrite Hbuf, <- app_assoc.
Qed.

Lemma covers_run (blocks read : list Block) (st : BufferState) :
  covers read st -> covers (read ++ blocks) (run blocks st).
Proof.
  revert read st. induction blocks as [|b l IH]; intros read st H; simpl.
  - by rewrite app_nil_r.
  - replace (read ++ b :: l) with ((read ++ [b]) ++ l) by (by rewrite <- app_assoc).
    by apply IH, covers_step.
Qed.

(** The buffers split the document: fresh parts, one per buffer and none
    empty, that put end to end give back the blocks. *)
Lemma chunk_buffers_cover (blocks : list Block) :
  exists fresh : list (list Block),
    concat fresh = blocks
    /\ length fresh = length (buffers blocks)
    /\ Forall (fun f => f <> []) fresh
    /\ forall k buf, buffers blocks !! k = Some buf ->
         exists f, fresh !! k = Some f /\ buf = carried (buffers blocks) k ++ f.
Proof.
  destruct (covers_run blocks [] buffer_init covers_init)
    as (fc & fb & Hcat & Hlen & Hne & Hnil & Hclosed & Hbuf).
  simpl in Hcat. unfold chunk_buffers.
  set (st := run blocks buffer_init) in *.
  destruct (buffer st) as [|x l] eqn:Hb.
  - assert (fb = []) as -> by (by destruct (carried (closed st) (length (closed st))), fb).
    destruct (Hnil eq_refl) as [_ Hc].
    exists []. unfold flush. rewrite Hb, Hc. simpl.
    rewrite Hc in Hlen. destruct fc; [|done]. simpl in Hcat.
    repeat split; done.
  - assert (fb <> []) as Hfb.
    { intros H. destruct (Hnil H) as [H' _]. congruence. }
    exists (fc ++ [fb]). unfold flush. rewrite Hb. simpl. rewrite <- Hb.
    repeat split.
    + rewrite concat_app. simpl. by rewrite app_nil_r.
    + rewrite !length_app. simpl. lia.
    + apply Forall_app. split; [done|]. by constructor.
    + intros k buf Hk.
      destruct (decide (k < length (closed st))%nat) as [Hlt|Hge].
      * rewrite lookup_app_l in Hk by done.
        destruct (Hclosed k buf Hk) as (f & Hf & Heq).
        exists f. split; [by rewrite lookup_app_l by lia|].
        by rewrite prev_overlap_app by lia.
      * rewrite lookup_app_r in Hk by lia.
        apply list_lookup_singleton_Some in Hk as [Hk <-].
        assert (k = length (closed st)) as -> by lia.
        exists fb. split.
        -- rewrite lookup_app_r by lia. by rewrite Hlen, Nat.sub_diag.
        -- rewrite prev_overlap_app by lia. by rewrite Hb.
Qed.

(** X1.  No content loss: the chunks of a document split its block
    sequence into consecutive non-empty fresh parts, one per chunk; the
    content of each chunk is the overlap carried over from the chunk before
    it followed by its fresh part, and the fresh parts put end to end are
    the document's blocks, each exactly once and in order. *)
Theorem no_content_loss (doc : Document) :
  exists fresh : list (list Block),
    concat fresh = content_blocks doc
    /\ length fresh = length (chunks_of doc)
    /\ Forall (fun f => f <> []) fresh
    /\ forall k c, chunks_of doc !! k = Some c ->
         exists f, fresh !! k = Some f
           /\ content c
              = combine_blocks (carried (buffers (content_blocks doc)) k ++ f).
Proof.
  destruct (chunk_buffers_cover (content_blocks doc))
    as (fresh & Hcat & Hlen & Hne & Hk).
  pose proof (chunk_contents config encode md5_hexdigest doc) as Hc.
  exists fresh. repeat split; try done.
  - rewrite Hlen. rewrite <- (length_fmap content), Hc. by rewrite length_fmap.
  - intros k c Hkc.
    assert ((content <$> chunks_of doc) !! k = Some (content c)) as H
      by (by rewrite list_lookup_fmap, Hkc).
    rewrite Hc, list_lookup_fmap in H.
    destruct (buffers (content_blocks doc) !! k) as [buf|] eqn:Hbuf; [|done].
    injection H as H. destruct (Hk k buf Hbuf) as (f & Hf & Heq).
    exists f. split; [done|]. by rewrite <- H, Heq.
Qed.

Lemma concat_length_ge {A} (ls : list (list A)) :
  Forall (fun l => l <> []) ls -> (length ls <= length (concat ls))%nat.
Proof.
  induction 1 as [|l ls Hl _ IH]; simpl; [done|].
  rewrite length_app. destruct l; [done|]. simpl. lia.
Qed.

(** X2.  Chunk count: a document without blocks gives no chunk, any other
    document gives at least one, and never more chunks than it has
    blocks. *)
Theorem chunk_count (doc : Document) :
  (chunks_of doc = [] <-> content_blocks doc = [])
  /\ (length (chunks_of doc) <= length (content_blocks doc))%nat.
Proof.
  destruct (chunk_buffers_cover (content_blocks doc))
    as (fresh & Hcat & Hlen & Hne & _).
  assert (length (chunks_of doc) = length fresh) as Hl.
  { rewrite Hlen, <- (length_fmap content),
      (chunk_contents config encode md5_hexdigest doc). by rewrite length_fmap. }
  split.
  - split; intros H.
    + rewrite H in Hl. destruct fresh; [by rewrite <- Hcat|done].
    + rewrite H in Hcat. apply (concat_length_ge fresh) in Hne.
      rewrite Hcat in Hne. simpl in Hne.
      destruct (chunks_of doc); [done|]. simpl in Hl. lia.
  - rewrite Hl, <- Hcat. by apply concat_length_ge.
Qed.

End ChunkerCoverage.

(** ** Reading a sequence number back from its three-digit form *)

Lemma digit_value_char (x : N) : (x < 10)%N -> digit_value (pretty_N_char x) = x.
Proof.
  intros Hx.
  assert (x = 0 \/ x = 1 \/ x = 2 \/ x = 3 \/ x = 4 \/ x = 5 \/ x = 6 \/ x = 7
          \/ x = 8 \/ x = 9)%N as H by lia.
  repeat (destruct H as [->|H]; [reflexivity|]). by subst.
Qed.

Lemma pretty_N_go_value (x : N) :
  exists p : N, forall acc s,
    decimal_value_from acc (pretty_N_go x s)
    = decimal_value_from (acc * 10 ^ p + x)%N s.
Proof.
  induction (N.lt_wf_0 x) as [x _ IH].
  destruct (decide (x = 0)%N) as [->|Hx].
  - exists 0%N. intros acc s. rewrite pretty_N_go_0. f_equal. lia.
  - destruct (IH (x `div` 10)%N) as [p Hp]; [apply N.div_lt; lia|].
    exists (p + 1)%N. intros acc s.
    rewrite pretty_N_go_step by lia. rewrite Hp. simpl.
    rewrite digit_value_char by (apply N.mod_lt; lia). f_equal.
    rewrite N.pow_add_r, N.pow_1_r.
    pose proof (N.div_mod x 10). lia.
Qed.

Lemma decimal_value_pretty (n : nat) : decimal_value (pretty n) = N.of_nat n.
Proof.
  unfold pretty, pretty_nat, pretty, pretty_N, decimal_value.
  destruct (decide (N.of_nat n = 0)%N) as [->|Hn]; [done|].
  destruct (pretty_N_go_value (N.of_nat n)) as [p Hp]. rewrite Hp. simpl. lia.
Qed.

(** The number can be read back from its padded form. *)
Lemma decimal_value_format_03d (n : nat) :
  decimal_value (PyStr.format_03d n) = N.of_nat n.
Proof.
  unfold PyStr.format_03d. rewrite <- (decimal_value_pretty n).
  destruct (String.length (pretty n)) as [|[|[|?]]]; try done.
Qed.

Lemma format_03d_inj (n m : nat) : PyStr.format_03d n = PyStr.format_03d m -> n = m.
Proof.
  intros H. apply (f_equal decimal_value) in H.
  rewrite !decimal_value_format_03d in H. lia.
Qed.

Lemma string_app_inv_head (a b c : string) : a +:+ b = a +:+ c -> b = c.
Proof. induction a as [|x a IH]; simpl; [done|]. intros [= H]. by apply IH. Qed.

(** ** Facts about [strip] *)

Lemma lstrip_clean_head (s : string) : clean_head (PyStr.lstrip s).
Proof.
  induction s as [|c s IH]; simpl; [done|].
  destruct (PyStr.is_space c) eqn:Hc; [done|]. simpl. done.
Qed.

Lemma lstrip_id (s : string) : clean_head s -> PyStr.lstrip s = s.
Proof. destruct s as [|c s]; simpl; [done|]. by intros ->. Qed.

Lemma rstrip_clean_head (s : string) : clean_head s -> clean_head (PyStr.rstrip s).
Proof.
  destruct s as [|c s]; simpl; [done|]. intros Hc.
  destruct (PyStr.rstrip s); [by rewrite Hc|done].
Qed.

Lemma rstrip_idem (s : string) : PyStr.rstrip (PyStr.rstrip s) = PyStr.rstrip s.
Proof.
  induction s as [|c s IH]; simpl; [done|].
  destruct (PyStr.rstrip s) as [|c' r'] eqn:Hr.
  - destruct (PyStr.is_space c) eqn:Hc; simpl; [done|by rewrite Hc].
  - simpl in *. by rewrite IH.
Qed.

Lemma strip_stripped (s : string) :
  PyStr.lstrip (PyStr.strip s) = PyStr.strip s
  /\ PyStr.rstrip (PyStr.strip s) = PyStr.strip s.
Proof.
  unfold PyStr.strip. split.
  - apply lstrip_id, rstrip_clean_head, lstrip_clean_head.
  - apply rstrip_idem.
Qed.

(** ** Facts about substring search *)

Lemma prefix_app (sub a b : string) :
  String.prefix sub a = true -> String.prefix sub (a +:+ b) = true.
Proof.
  revert a. induction sub as [|d sub IH]; intros a; [by destruct a, b|].
  destruct a as [|c a]; simpl; [done|].
  destruct (ascii_dec d c); [apply IH|done].
Qed.

Lemma contains_app_l (sub a b : string) :
  PyStr.contains sub a = true -> PyStr.contains sub (a +:+ b) = true.
Proof.
  induction a as [|c a IH]; simpl.
  - rewrite orb_false_r. intros H. destruct sub; [by destruct b|done].
  - intros [H|H]%orb_true_iff; apply orb_true_iff.
    + left. by apply (prefix_app sub (String c a) b).
    + right. by apply IH.
Qed.

Lemma contains_app_r (sub a b : string) :
  PyStr.contains sub b = true -> PyStr.contains sub (a +:+ b) = true.
Proof.
  intros H. induction a as [|c a IH]; simpl; [done|].
  apply orb_true_iff. by right.
Qed.

Lemma contains_join (sub sep : string) (parts : list string) (x : string) :
  In x parts -> PyStr.contains sub x = true ->
  PyStr.contains sub (PyStr.join sep parts) = true.
Proof.
  intros Hin Hx. induction parts as [|y parts IH]; [done|].
  destruct Hin as [->|Hin].
  - destruct parts as [|z parts]; [done|].
    change (PyStr.join sep (x :: z :: parts))
      with (x +:+ sep +:+ PyStr.join sep (z :: parts)).
    by apply contains_app_l.
  - destruct parts as [|z parts]; [done|].
    change (PyStr.join sep (y :: z :: parts))
      with (y +:+ sep +:+ PyStr.join sep (z :: parts)).
    by apply contains_app_r, contains_app_r, IH.
Qed.

(** An occurrence of a text free of whitespace survives stripping. *)
Lemma contains_lstrip (sub s : string) :
  sub <> EmptyString -> no_space sub = true ->
  PyStr.contains sub s = true -> PyStr.contains sub (PyStr.lstrip s) = true.
Proof.
  intros Hne Hsub. induction s as [|c s IH]; [done|].
  intros H. simpl. destruct (PyStr.is_space c) eqn:Hc; [|done].
  apply IH. simpl in H. apply orb_true_iff in H as [H|H]; [|done].
  destruct sub as [|d sub]; [done|]. simpl in H, Hsub.
  destruct (ascii_dec d c) as [->|]; [|done].
  by rewrite Hc in Hsub.
Qed.

Lemma prefix_rstrip (sub s : string) :
  sub <> EmptyString -> no_space sub = true ->
  String.prefix sub s = true -> String.prefix sub (PyStr.rstrip s) = true.
Proof.
  revert s. induction sub as [|d sub IH]; intros s Hne Hsub H; [done|].
  destruct s as [|c s]; [done|]. simpl in H, Hsub.
  destruct (ascii_dec d c) as [->|]; [|done].
  apply andb_true_iff in Hsub as [Hc Hsub]. apply negb_true_iff in Hc.
  simpl. destruct sub as [|d' sub].
  - destruct (PyStr.rstrip s); simpl; [rewrite Hc; simpl|];
      by destruct (ascii_dec c c).
  - assert (String.prefix (String d' sub) (PyStr.rstrip s) = true) as Hp
      by (by apply IH).
    destruct (PyStr.rstrip s) as [|c' r']; [done|].
    simpl. by destruct (ascii_dec c c).
Qed.

Lemma contains_rstrip (sub s : string) :
  sub <> EmptyString -> no_space sub = true ->
  PyStr.contains sub s = true -> PyStr.contains sub (PyStr.rstrip s) = true.
Proof.
  intros Hne Hsub. induction s as [|c s IH]; [done|].
  intros H. apply orb_true_iff in H as [H|H].
  - apply (prefix_rstrip sub (String c s) Hne Hsub) in H.
    destruct (PyStr.rstrip (String c s)); simpl; apply orb_true_iff; by left.
  - specialize (IH H). simpl.
    destruct (PyStr.rstrip s) as [|c' r'] eqn:Hr.
    + by destruct sub.
    + simpl. apply orb_true_iff. by right.
Qed.

Lemma contains_strip (sub s : string) :
  sub <> EmptyString -> no_space sub = true ->
  PyStr.contains sub s = true -> PyStr.contains sub (PyStr.strip s) = true.
Proof.
  intros. unfold PyStr.strip. by apply contains_rstrip, contains_lstrip.
Qed.

(** ** The chunker: what each chunk carries *)

Section ChunkFields.
Variable config : Config.
Variable encode : string -> list Z.
Variable md5_hexdigest : string -> string.

Local Abbreviation overlap := (get_overlap_blocks config encode).
Local Abbreviation total := (sum_tokens encode).
Local Abbreviation buffers := (chunk_buffers config encode).
Local Abbreviation chunks_of := (create_contextual_chunks config encode md5_hexdigest).
Local Abbreviation cstep := (chunk_step config encode md5_hexdigest).
Local Abbreviation number := (chunk_id md5_hexdigest).

(** Every chunk is [create_chunk] applied to its position, its own content
    and its own section. *)
Lemma chunk_fields (doc : Document) (k : nat) (c : DocumentChunk) :
  chunks_of doc !! k = Some c ->
  c = create_chunk encode (number doc k) (content c) doc (section c).
Proof.
  assert (forall blocks st,
    (forall k c, chunks st !! k = Some c ->
       c = create_chunk encode (number doc k) (content c) doc (section c)) ->
    forall k c, chunks (fold_left (cstep doc) blocks st) !! k = Some c ->
       c = create_chunk encode (number doc k) (content c) doc (section c)) as Hrun.
  { induction blocks as [|b l IH]; intros st Hst; simpl; [done|].
    apply IH. intros i x. unfold chunk_step.
    destruct (_ && _); simpl; [|apply Hst].
    intros Hi. destruct (decide (i < length (chunks st))%nat) as [Hlt|Hge].
    - rewrite lookup_app_l in Hi by done. by apply Hst.
    - rewrite lookup_app_r in Hi by lia.
      apply list_lookup_singleton_Some in Hi as [Hi <-].
      by assert (i = length (chunks st)) as -> by lia. }
  unfold create_contextual_chunks.
  set (st := fold_left (cstep doc) (content_blocks doc) chunker_init).
  assert (forall k c, chunks st !! k = Some c ->
    c = create_chunk encode (number doc k) (content c) doc (section c)) as Hst.
  { apply Hrun. intros i x H. simpl in H. by rewrite lookup_nil in H. }
  destruct (negb (is_empty (current_chunk st))); [|apply Hst].
  intros Hk. destruct (decide (k < length (chunks st))%nat) as [Hlt|Hge].
  - rewrite lookup_app_l in Hk by done. by apply Hst.
  - rewrite lookup_app_r in Hk by lia.
    apply list_lookup_singleton_Some in Hk as [Hk <-].
    by assert (k = length (chunks st)) as -> by lia.
Qed.

Lemma chunk_id_inj (doc : Document) (n m : nat) : number doc n = number doc m -> n = m.
Proof.
  unfold chunk_id. intros H.
  by apply string_app_inv_head, string_app_inv_head, format_03d_inj in H.
Qed.

(** X3.  Chunk identifiers: the [k]-th chunk of a document is named by the
    first eight characters of the digest of the file path, an underscore
    and [k] written with at least three digits; the number can be read back
    from that form, and no two chunks of a document share an identifier. *)
Theorem chunk_ids_distinct (doc : Document) :
  (forall k c, chunks_of doc !! k = Some c ->
     id c = String.substring 0 8 (md5_hexdigest (file_path doc))
              +:+ "_" +:+ PyStr.format_03d k
     /\ decimal_value (PyStr.format_03d k) = N.of_nat k)
  /\ NoDup (id <$> chunks_of doc).
Proof.
  split.
  - intros k c Hk. split; [|apply decimal_value_format_03d].
    by rewrite (chunk_fields doc k c Hk) at 1.
  - apply NoDup_alt. intros i j x Hi Hj.
    rewrite list_lookup_fmap in Hi, Hj.
    destruct (chunks_of doc !! i) as [ci|] eqn:Hci; [|done].
    destruct (chunks_of doc !! j) as [cj|] eqn:Hcj; [|done].
    simpl in Hi, Hj. injection Hi as Hi. injection Hj as Hj.
    rewrite (chunk_fields doc i ci Hci) in Hi.
    rewrite (chunk_fields doc j cj Hcj) in Hj. simpl in Hi, Hj.
    apply (chunk_id_inj doc). congruence.
Qed.

(** X4.  Chunk text and its measures: the content of every emitted chunk
    has no whitespace at either end, and the token count and the content
    tags stored in its metadata are those of that content. *)
Theorem chunk_content_is_stripped (doc : Document) :
  Forall (fun c =>
            PyStr.lstrip (content c) = content c
            /\ PyStr.rstrip (content c) = content c
            /\ token_count (metadata c) = count_tokens encode (content c)
            /\ content_types (metadata c) = analyze_content_types (content c))
    (chunks_of doc).
Proof.
  apply Forall_lookup. intros k c Hk.
  pose proof (chunk_fields doc k c Hk) as Hc.
  assert ((content <$> chunks_of doc) !! k = Some (content c)) as H
    by (by rewrite list_lookup_fmap, Hk).
  rewrite (chunk_contents config encode md5_hexdigest doc), list_lookup_fmap in H.
  destruct (buffers (content_blocks doc) !! k) as [buf|]; [|done].
  injection H as H. rewrite <- H. unfold combine_blocks at 1 2 3 4.
  destruct (strip_stripped (PyStr.join PyStr.nl (map format_block buf))) as [-> ->].
  split; [done|]. split; [done|]. rewrite Hc. simpl. by rewrite H.
Qed.

Lemma combine_blocks_code (blocks : list Block) (b : Block) :
  In b blocks -> type b = "code" ->
  PyStr.contains "```" (combine_blocks blocks) = true.
Proof.
  intros Hin Hb. unfold combine_blocks. apply contains_strip; [done|done|].
  apply (contains_join _ _ _ (format_block b)); [by apply in_map|].
  unfold format_block. rewrite Hb. simpl String.eqb. cbv iota.
  apply contains_app_r, contains_app_l. reflexivity.
Qed.

(** X5.  Code tag: a chunk built from a block sequence that holds a block
    of type [code] is tagged [code]. *)
Theorem code_block_is_tagged (doc : Document) (k : nat) (c : DocumentChunk)
    (blocks : list Block) (b : Block) :
  chunks_of doc !! k = Some c ->
  buffers (content_blocks doc) !! k = Some blocks ->
  In b blocks -> type b = "code" ->
  In "code" (content_types (metadata c)).
Proof.
  intros Hk Hbuf Hin Hb.
  pose proof (chunk_fields doc k c Hk) as Hc.
  assert ((content <$> chunks_of doc) !! k = Some (content c)) as H
    by (by rewrite list_lookup_fmap, Hk).
  rewrite (chunk_contents config encode md5_hexdigest doc), list_lookup_fmap, Hbuf in H.
  injection H as H.
  rewrite Hc. simpl. unfold analyze_content_types.
  rewrite <- H, (combine_blocks_code blocks b Hin Hb). by left.
Qed.

(** X6.  The overlap is the longest one allowed: every suffix of the block
    sequence whose token counts sum to at most [chunk_overlap] is a suffix
    of what [get_overlap_blocks] returns. *)
Theorem overlap_is_longest (blocks tail : list Block) :
  tail `suffix_of` blocks ->
  total tail <= chunk_overlap config ->
  tail `suffix_of` overlap blocks.
Proof.
  assert (forall reversed head n acc,
    head `prefix_of` reversed ->
    n + total head <= chunk_overlap config ->
    (rev head ++ acc) `suffix_of` overlap_loop config encode reversed n acc) as Hloop.
  { induction reversed as [|b rest IH]; intros head n acc Hpre Hsum.
    - apply prefix_nil_inv in Hpre as ->. by simpl.
    - destruct head as [|h head].
      + change (rev [] ++ acc) with acc.
        destruct (overlap_loop_take config encode (b :: rest) n acc)
          as (k & -> & _). by apply suffix_app_r.
      + apply prefix_cons_inv_1 in Hpre as Hh. subst h.
        apply prefix_cons_inv_2 in Hpre. simpl in Hsum |- *.
        pose proof (sum_tokens_nonneg encode head).
        destruct (Z.leb_spec (n + count_tokens encode (b_content b))
                    (chunk_overlap config)); [|lia].
        rewrite <- app_assoc. simpl. apply IH; [done|lia]. }
  intros Hsuf Hsum. destruct blocks as [|b l].
  - apply suffix_nil_inv in Hsuf as ->. done.
  - unfold get_overlap_blocks.
    rewrite <- (app_nil_r tail), <- (rev_involutive tail).
    apply Hloop.
    + destruct Hsuf as [front ->]. rewrite rev_app_distr. by apply prefix_app_r.
    + rewrite sum_tokens_rev. lia.
Qed.

End ChunkFields.

(** ** The chunker: sections, and what it does not read *)

Section ChunkSections.
Variable config : Config.
Variable encode : string -> list Z.
Variable md5_hexdigest : string -> string.

Local Abbreviation overlap := (get_overlap_blocks config encode).
Local Abbreviation total := (sum_tokens encode).
Local Abbreviation chunks_of := (create_contextual_chunks config encode md5_hexdigest).
Local Abbreviation cstep := (chunk_step config encode md5_hexdigest).

Lemma last_heading_snoc (blocks : list Block) (b : Block) :
  last_heading (blocks ++ [b])
  = if String.eqb (type b) "heading" then Some (b_content b)
    else last_heading blocks.
Proof. unfold last_heading. by rewrite fold_left_app. Qed.

Lemma current_section_run (doc : Document) (blocks : list Block) (st : ChunkerState) :
  current_section (fold_left (cstep doc) blocks st)
  = fold_left (fun acc b => if String.eqb (type b) "heading"
                            then Some (b_content b) else acc)
      blocks (current_section st).
Proof.
  revert st. induction blocks as [|b l IH]; intros st; simpl; [done|].
  rewrite IH. f_equal. unfold chunk_step. by destruct (_ && _).
Qed.

Lemma pending_after_step (doc : Document) (st : ChunkerState) (b : Block) :
  current_chunk (cstep doc st b) <> [].
Proof.
  unfold chunk_step. destruct (_ && _); simpl; intros H;
    by apply app_eq_nil in H as [_ ?].
Qed.

Lemma pending_after_run (doc : Document) (blocks : list Block) (st : ChunkerState) :
  blocks <> [] -> current_chunk (fold_left (cstep doc) blocks st) <> [].
Proof.
  destruct blocks as [|b l _] using rev_ind; [done|]. intros _.
  rewrite fold_left_app. apply pending_after_step.
Qed.

Lemma final_section (doc : Document) (c : DocumentChunk) :
  last (chunks_of doc) = Some c ->
  section c = last_heading (content_blocks doc).
Proof.
  unfold create_contextual_chunks.
  destruct (content_blocks doc) as [|b l] eqn:Hblocks; [done|].
  set (st := fold_left (cstep doc) (b :: l) chunker_init).
  pose proof (pending_after_run doc (b :: l) chunker_init) as Hne.
  fold st in Hne.
  destruct (current_chunk st) eqn:Hcur; [by destruct Hne|]. simpl negb. cbv iota.
  rewrite last_snoc. intros [= <-]. simpl.
  unfold st. by rewrite current_section_run.
Qed.

(** X7.  Section of the last chunk: the chunk that closes a document
    carries the text of the document's last heading as its section, and
    none when the document has no heading. *)
Theorem last_chunk_section (doc : Document) (c : DocumentChunk) :
  last (chunks_of doc) = Some c ->
  section c = last_heading (content_blocks doc).
Proof. apply final_section. Qed.

Lemma sum_tokens_same (l l' : list Block) :
  Forall2 same_text l l' -> total l = total l'.
Proof.
  induction 1 as [|b b' l l' (_ & Hc & _) _ IH]; simpl; [done|]. by rewrite Hc, IH.
Qed.

Lemma format_block_same (b b' : Block) : same_text b b' -> format_block b = format_block b'.
Proof. intros (Ht & Hc & Hl). unfold format_block. by rewrite Ht, Hc, Hl. Qed.

Lemma combine_blocks_same (l l' : list Block) :
  Forall2 same_text l l' -> combine_blocks l = combine_blocks l'.
Proof.
  intros H. unfold combine_blocks. f_equal. f_equal.
  induction H as [|b b' l l' Hb _ IH]; simpl; [done|].
  by rewrite (format_block_same b b' Hb), IH.
Qed.

Lemma Forall2_rev_same (l l' : list Block) :
  Forall2 same_text l l' -> Forall2 same_text (rev l) (rev l').
Proof.
  induction 1 as [|b b' l l' Hb _ IH]; simpl; [constructor|].
  apply Forall2_app; [done|]. constructor; [done|constructor].
Qed.

Lemma overlap_loop_same (reversed reversed' : list Block) :
  Forall2 same_text reversed reversed' ->
  forall n acc acc', Forall2 same_text acc acc' ->
  Forall2 same_text (overlap_loop config encode reversed n acc)
    (overlap_loop config encode reversed' n acc').
Proof.
  induction 1 as [|b b' l l' Hb _ IH]; intros n acc acc' Hacc; simpl; [done|].
  destruct Hb as (Ht & Hc & Hl). rewrite Hc.
  destruct (_ <=? _); [|done]. apply IH. constructor; [by repeat split|done].
Qed.

Lemma get_overlap_blocks_same (l l' : list Block) :
  Forall2 same_text l l' -> Forall2 same_text (overlap l) (overlap l').
Proof.
  intros H. unfold get_overlap_blocks.
  destruct H as [|b b' l l' Hb H]; [constructor|].
  apply overlap_loop_same; [|constructor].
  apply Forall2_rev_same. by constructor.
Qed.

(** X8.  The chunker reads the type, the content and the language of a
    block and nothing else: two documents whose blocks differ only in
    their [section] and [level] entries give the same chunks. *)
Theorem chunks_ignore_block_sections (doc : Document) (blocks' : list Block) :
  Forall2 same_text (content_blocks doc) blocks' ->
  chunks_of doc = chunks_of (with_blocks doc blocks').
Proof.
  intros Hsame.
  assert (forall l l', Forall2 same_text l l' ->
    forall st st',
      chunks st = chunks st' ->
      Forall2 same_text (current_chunk st) (current_chunk st') ->
      current_size st = current_size st' ->
      current_section st = current_section st' ->
      let r := fold_left (cstep doc) l st in
      let r' := fold_left (cstep (with_blocks doc blocks')) l' st' in
      chunks r = chunks r'
      /\ Forall2 same_text (current_chunk r) (current_chunk r')
      /\ current_section r = current_section r') as Hrun.
  { induction 1 as [|b b' l l' Hb _ IH]; intros st st' H1 H2 H3 H4; simpl; [done|].
    pose proof Hb as (Ht & Hc & Hl).
    assert (is_empty (current_chunk st) = is_empty (current_chunk st')) as He
      by (by destruct H2).
    apply IH; unfold chunk_step; rewrite <- H1, <- H3, <- H4, <- He, <- Ht, <- Hc;
      destruct (_ && _); simpl; try done.
    - by rewrite (combine_blocks_same _ _ H2).
    - apply Forall2_app; [by apply get_overlap_blocks_same|constructor; [done|constructor]].
    - apply Forall2_app; [done|constructor; [done|constructor]].
    - apply sum_tokens_same, Forall2_app;
        [by apply get_overlap_blocks_same|constructor; [done|constructor]]. }
  destruct (Hrun (content_blocks doc) blocks' Hsame chunker_init chunker_init)
    as (H1 & H2 & H3); try done.
  unfold create_contextual_chunks.
  change (content_blocks (with_blocks doc blocks')) with blocks'.
  rewrite <- H1, <- H3.
  assert (is_empty (current_chunk (fold_left (cstep doc) (content_blocks doc) chunker_init))
          = is_empty (current_chunk
                        (fold_left (cstep (with_blocks doc blocks')) blocks' chunker_init)))
    as -> by (by destruct H2).
  destruct (negb _); [|done].
  by rewrite (combine_blocks_same _ _ H2).
Qed.

End ChunkSections.

(** ** Structured content extraction *)

Lemma prefix_substring (p s : string) :
  String.prefix p s = true ->
  s = p +:+ String.substring (String.length p) (String.length s - String.length p) s.
Proof.
  revert s. induction p as [|a p IH]; intros s H; simpl.
  - rewrite Nat.sub_0_r. clear H.
    change (s = String.substring 0 (String.length s) s).
    induction s as [|c s IHs]; simpl; [done|]. by f_equal.
  - destruct s as [|b s]; [done|]. simpl in H |- *.
    destruct (ascii_dec a b) as [->|]; [|done].
    rewrite (IH s H) at 1. reflexivity.
Qed.

Lemma mem_In (x : string) (l : list string) : mem x l = true <-> In x l.
Proof.
  unfold mem. rewrite existsb_exists. split.
  - intros (y & Hy & Heq). apply String.eqb_eq in Heq. by subst.
  - intros H. exists x. split; [done|apply String.eqb_refl].
Qed.

Lemma language_of_classes_cons (cls : string) (rest : list string) :
  language_of_classes (cls :: rest)
  = if String.prefix "language-" cls
    then Some (String.substring 9 (String.length cls - 9) cls)
    else if mem cls known_languages then Some cls
    else language_of_classes rest.
Proof. reflexivity. Qed.

Lemma language_of_classes_Some (class_list : list string) (language : string) :
  language_of_classes class_list = Some language ->
  exists cls, In cls class_list
    /\ (cls = "language-" +:+ language
        \/ (cls = language /\ In language known_languages)).
Proof.
  induction class_list as [|cls rest IH]; [done|].
  rewrite language_of_classes_cons.
  destruct (String.prefix "language-" cls) eqn:Hp.
  - intros H. injection H as H. subst language.
    exists cls. split; [by left|]. left.
    by apply (prefix_substring "language-" cls).
  - destruct (mem cls known_languages) eqn:Hm.
    + intros H. injection H as H. subst language.
      exists cls. split; [by left|]. right.
      split; [done|by apply mem_In].
    + intros H. destruct (IH H) as (c & Hc & Hl). exists c. split; [by right|done].
Qed.

Lemma language_of_classes_None (class_list : list string) :
  language_of_classes class_list = None <->
  Forall (fun cls => names_language cls = false) class_list.
Proof.
  induction class_list as [|cls rest IH]; [split; [constructor|done]|].
  rewrite language_of_classes_cons, Forall_cons.
  unfold names_language at 1.
  destruct (String.prefix "language-" cls), (mem cls known_languages); cbn [orb];
    try (split; [intros; discriminate|intros [? _]; discriminate]).
  rewrite IH. split; [by split|by intros [_ ?]].
Qed.

(** X9.  Language detection: a detected language comes from a class of the
    [pre] element or of its [code] child, either as the rest of a class
    that starts with [language-] or as a class that is one of the seven
    known language names; no language is detected exactly when no class of
    either element is of those two kinds. *)
Theorem detect_code_language_spec (pre_element : Element) :
  match detect_code_language pre_element with
  | Some language =>
      exists cls,
        (In cls (classes pre_element)
         \/ exists code_class, code_classes pre_element = Some code_class
                               /\ In cls code_class)
        /\ (cls = "language-" +:+ language
            \/ (cls = language /\ In language known_languages))
  | None =>
      Forall (fun cls => names_language cls = false) (classes pre_element)
      /\ forall code_class, code_classes pre_element = Some code_class ->
           Forall (fun cls => names_language cls = false) code_class
  end.
Proof.
  unfold detect_code_language.
  destruct (language_of_classes (classes pre_element)) as [l|] eqn:Hpre.
  - destruct (language_of_classes_Some _ _ Hpre) as (cls & Hin & Hl).
    exists cls. split; [by left|done].
  - apply language_of_classes_None in Hpre.
    destruct (code_classes pre_element) as [cs|] eqn:Hcode.
    + destruct (language_of_classes cs) as [l|] eqn:Hcs.
      * destruct (language_of_classes_Some _ _ Hcs) as (cls & Hin & Hl).
        exists cls. split; [right; by exists cs|done].
      * split; [done|]. intros ? [= <-]. by apply language_of_classes_None.
    + split; [done|]. by intros.
Qed.

(** X10.  A code block without a detected language: the block extracted
    from a [pre] element none of whose classes names a language is
    rendered by [combine_blocks] inside a fence marked [None]. *)
Theorem undetected_language_fence (element : Element) :
  name element = Html.pre ->
  detect_code_language element = None ->
  map format_block (extract_structured_content [element])
  = [PyStr.nl +:+ "```None" +:+ PyStr.nl +:+ text element
       +:+ PyStr.nl +:+ "```" +:+ PyStr.nl].
Proof.
  intros Hname Hlang. unfold extract_structured_content. simpl.
  unfold extract_step. rewrite Hname. simpl. by rewrite Hlang.
Qed.

Lemma extract_run (elements : list Element) (st : list Block * option string) :
  snd st = last_heading (fst st) ->
  (forall k b, fst st !! k = Some b ->
     b_section b = last_heading (take (S k) (fst st))) ->
  let st' := fold_left extract_step elements st in
  snd st' = last_heading (fst st')
  /\ forall k b, fst st' !! k = Some b ->
       b_section b = last_heading (take (S k) (fst st')).
Proof.
  revert st. induction elements as [|e l IH]; intros [blocks cs] Hcs Hsec; simpl;
    [done|].
  simpl in Hcs, Hsec.
  assert (forall b, (if String.eqb (type b) "heading" then Some (b_content b) else cs)
                    = b_section b ->
          (forall k x, (blocks ++ [b]) !! k = Some x ->
             b_section x = last_heading (take (S k) (blocks ++ [b])))) as Hsnoc.
  { intros b Hb k x Hk.
    destruct (decide (k < length blocks)%nat) as [Hlt|Hge].
    - rewrite lookup_app_l in Hk by done.
      rewrite take_app_le by lia. by apply Hsec.
    - rewrite lookup_app_r in Hk by lia.
      apply list_lookup_singleton_Some in Hk as [Hk <-].
      rewrite take_ge by (rewrite length_app; simpl; lia).
      by rewrite last_heading_snoc, <- Hcs, Hb. }
  apply IH; unfold extract_step; simpl;
    destruct (name e); simpl;
    rewrite ?last_heading_snoc; simpl; try done;
    try (apply Hsnoc; by simpl);
    destruct (PyStr.strip (text e)); simpl;
    rewrite ?last_heading_snoc; simpl; try done;
    apply Hsnoc; by simpl.
Qed.

(** X11.  Sections of extracted blocks: the section recorded in every
    block that [extract_structured_content] produces is the text of the
    last heading up to and including that block, and none before the first
    heading. *)
Theorem extracted_sections (elements : list Element) (k : nat) (b : Block) :
  extract_structured_content elements !! k = Some b ->
  b_section b = last_heading (take (S k) (extract_structured_content elements)).
Proof.
  unfold extract_structured_content.
  destruct (extract_run elements ([], None)) as [_ H]; try done.
  apply H.
Qed.

Lemma strip_idem (s : string) : PyStr.strip (PyStr.strip s) = PyStr.strip s.
Proof.
  destruct (strip_stripped s) as [Hl Hr].
  unfold PyStr.strip at 1. by rewrite Hl, Hr.
Qed.

Lemma extract_step_shape (st : list Block * option string) (element : Element) :
  Forall block_shape (fst st) ->
  Forall block_shape (fst (extract_step st element))
  /\ (length (fst (extract_step st element)) <= S (length (fst st)))%nat.
Proof.
  intros Hst. unfold extract_step.
  assert (forall b, block_shape b ->
    Forall block_shape (fst st ++ [b])
    /\ (length (fst st ++ [b]) <= S (length (fst st)))%nat) as Hsnoc.
  { intros b Hb. split; [apply Forall_app; split; [done|by constructor]|].
    rewrite length_app. simpl. lia. }
  destruct (name element) eqn:Hname; simpl;
    try (apply Hsnoc; left; simpl; repeat split; try done;
         [eexists; split; [done|lia] | apply strip_idem]);
    try (apply Hsnoc; right; left; simpl; repeat split; try done; by eexists);
    try (apply Hsnoc; right; right; left; simpl; repeat split; try done;
         (by left) || (by right)).
  destruct (PyStr.strip (text element)) as [|c r] eqn:Hs; simpl.
  - split; [done|lia].
  - apply Hsnoc. right; right; right. simpl. repeat split; try done.
    rewrite <- Hs. apply strip_idem.
Qed.

(** X12.  Shapes of extracted blocks: every block built from the parsed
    elements is a heading (with a level from 1 to 6 and itself as section),
    a code block (with a language entry), a list, a table, or a text block
    whose content is non-empty and stripped; elements that yield no text
    give no block, so there are never more blocks than elements. *)
Theorem extracted_block_shapes (elements : list Element) :
  Forall block_shape (extract_structured_content elements)
  /\ (length (extract_structured_content elements) <= length elements)%nat.
Proof.
  unfold extract_structured_content.
  assert (forall l st, Forall block_shape (fst st) ->
    Forall block_shape (fst (fold_left extract_step l st))
    /\ (length (fst (fold_left extract_step l st)) <= length l + length (fst st))%nat)
    as Hrun.
  { induction l as [|e l IH]; intros st Hst; simpl; [done|].
    destruct (extract_step_shape st e Hst) as [H1 H2].
    destruct (IH _ H1) as [H3 H4]. split; [done|lia]. }
  destruct (Hrun elements ([], None)) as [H1 H2]; [constructor|].
  split; [done|]. simpl in H2. lia.
Qed.

(** X13.  Extraction and chunking agree on sections: when a document's
    blocks come from [extract_structured_content], the section of its last
    chunk is the section recorded in its last block. *)
Theorem extracted_section_agrees (config : Config) (encode : string -> list Z)
    (md5_hexdigest : string -> string) (doc : Document) (elements : list Element)
    (b : Block) (c : DocumentChunk) :
  content_blocks doc = extract_structured_content elements ->
  last (content_blocks doc) = Some b ->
  last (create_contextual_chunks config encode md5_hexdigest doc) = Some c ->
  section c = b_section b.
Proof.
  intros Hblocks Hb Hc.
  rewrite (final_section config encode md5_hexdigest doc c Hc).
  rewrite last_lookup in Hb. rewrite Hblocks in Hb |- *.
  unfold extract_structured_content in *.
  destruct (extract_run elements ([], None)) as [_ H]; try done.
  rewrite (H _ _ Hb). f_equal. rewrite take_ge; [done|lia].
Qed.

(** ** Ranking: order of the fused list, sizes and the threshold *)

Lemma SFleb_lex (f g : spec_float) :
  SFleb f g = true <->
  f <> S754_nan /\ g <> S754_nan /\ ~ lex_lt (sf_key g) (sf_key f).
Proof.
  unfold SFleb, lex_lt.
  destruct f as [s|s| |s m e], g as [s'|s'| |s' m' e'];
    try destruct s; try destruct s'; simpl;
    try (split; [intros _; repeat split; (done || lia) | done]);
    try (split; [done | intros (? & ? & ?); (done || lia)]).
  - change (Pos.compare_cont Eq m m') with (Pos.compare m m').
    destruct (Z.compare_spec e e'), (Pos.compare_spec m m'); simpl;
      (split; [intros ?; repeat split; (done || lia) | intros (? & ? & ?); (done || lia)]).
  - change (Pos.compare_cont Eq m m') with (Pos.compare m m').
    destruct (Z.compare_spec e e'), (Pos.compare_spec m m'); simpl;
      (split; [intros ?; repeat split; (done || lia) | intros (? & ? & ?); (done || lia)]).
Qed.

(** [<=] on floats is transitive. *)
Lemma leb_trans (x y z : float) :
  PrimFloat.leb x y = true -> PrimFloat.leb y z = true -> PrimFloat.leb x z = true.
Proof.
  rewrite !FloatAxioms.leb_spec, !SFleb_lex.
  intros (Hx & Hy & Hxy) (_ & Hz & Hyz). repeat split; try done.
  unfold lex_lt in *. lia.
Qed.

Lemma slice_to_length {A} (k : Z) (l : list A) :
  length (PyStr.slice_to k l)
  = if 0 <=? k then Nat.min (Z.to_nat k) (length l)
    else (length l - Z.to_nat (- k))%nat.
Proof.
  unfold PyStr.slice_to. destruct (0 <=? k); rewrite length_take; lia.
Qed.

Lemma slice_to_sublist {A} (k : Z) (l : list A) (x : A) :
  In x (PyStr.slice_to k l) -> In x l.
Proof.
  destruct (slice_to_take k l) as [n ->]. rewrite <- !list_elem_of_In.
  apply subseteq_take.
Qed.

Lemma slice_to_mono {A B} (k : Z) (l : list A) (l' : list B) :
  (length l <= length l')%nat ->
  (length (PyStr.slice_to k l) <= length (PyStr.slice_to k l'))%nat.
Proof. intros H. rewrite !slice_to_length. destruct (0 <=? k); lia. Qed.

Lemma filter_length_le {A} (f : A -> bool) (l : list A) :
  (length (List.filter f l) <= length l)%nat.
Proof. induction l as [|x l IH]; simpl; [done|]. destruct (f x); simpl; lia. Qed.

Lemma sorted_desc_length {A} (key : A -> float) (l : list A) :
  length (sorted_desc key l) = length l.
Proof. apply Permutation_length, sorted_desc_perm. Qed.

Lemma filter_leb_mono (t1 t2 : float) (results : list SearchResult) :
  PrimFloat.leb t1 t2 = true ->
  (length (List.filter (fun r => PrimFloat.leb t2 (score r)) results)
   <= length (List.filter (fun r => PrimFloat.leb t1 (score r)) results))%nat.
Proof.
  intros Ht. induction results as [|r l IH]; simpl; [done|].
  destruct (PrimFloat.leb t2 (score r)) eqn:H2.
  - rewrite (leb_trans _ _ _ Ht H2). simpl. lia.
  - destruct (PrimFloat.leb t1 (score r)); simpl; lia.
Qed.

Lemma filter_and_rank_length (config : Config) (results : list SearchResult)
    (question context_type : string) (filters : Filters) :
  length (filter_and_rank_results config results question context_type filters)
  = length (List.filter
              (fun r => PrimFloat.leb (similarity_threshold config) (score r)) results).
Proof.
  unfold filter_and_rank_results. by rewrite sorted_desc_length, length_map.
Qed.

Lemma boost_cases (context_type : string) (r : SearchResult) :
  chunk (boost context_type r) = chunk r
  /\ relevance_type (boost context_type r) = relevance_type r
  /\ (score (boost context_type r) = score r
      \/ score (boost context_type r) = (score r * 1.2)%float).
Proof.
  unfold boost.
  repeat (destruct (_ && _); [simpl; repeat split; by right|]).
  repeat split. by left.
Qed.

Section RetrievalProps.
Variable Store : Type.
Variable Embedding : Type.
Variable embed : string -> Result Embedding.
Variable index : IndexOps Store Embedding.
Variable keyword_search : Store -> string -> Z -> Result (list SearchResult).

Local Abbreviation retrieve c :=
  (retrieve_context c Store Embedding embed index keyword_search).
Local Abbreviation hybrid :=
  (hybrid_search Store Embedding embed index keyword_search).
Local Abbreviation semantic := (search Store Embedding embed index).

(** X14.  Result sizes: for a non-negative [max_chunks], retrieval returns
    at most [max_chunks] hits, drawn from at most [2 * max_chunks] fused
    candidates. *)
Theorem retrieval_size_bounds (config : Config) (sys : RAGSystem Store)
    (question context_type : string) (max_chunks : Z) (hits : list SearchResult) :
  0 <= max_chunks ->
  retrieve config sys question max_chunks context_type = Ok hits ->
  Z.of_nat (length hits) <= max_chunks
  /\ exists fused,
       hybrid (vector_store Store sys) question (max_chunks * 2) 0.7%float 0.3%float
         = Ok fused
       /\ Z.of_nat (length fused) <= 2 * max_chunks
       /\ (length hits <= length fused)%nat.
Proof.
  intros Hk. unfold retrieve_context, retrieve_context_with.
  destruct (hybrid _ _ _ _ _) as [fused|e] eqn:Hh; simpl; [|done].
  intros [= <-]. rewrite slice_to_length, filter_and_rank_length.
  destruct (Z.leb_spec 0 max_chunks); [|lia].
  split; [lia|]. exists fused. split; [done|].
  pose proof (filter_length_le
    (fun r => PrimFloat.leb (similarity_threshold config) (score r)) fused) as Hf.
  split; [|lia].
  unfold hybrid_search in Hh.
  destruct (semantic _ _ _ _) as [sem|]; simpl in Hh; [|done].
  destruct (keyword_search _ _ _) as [kw|]; simpl in Hh; [|done].
  injection Hh as <-. rewrite slice_to_length.
  destruct (Z.leb_spec 0 (max_chunks * 2)); lia.
Qed.

(** X15.  Threshold monotonicity: over the same index and question,
    raising [similarity_threshold] never increases the number of hits that
    retrieval returns. *)
Theorem threshold_monotone (low high : Config) (sys : RAGSystem Store)
    (question context_type : string) (max_chunks : Z)
    (hits_low hits_high : list SearchResult) :
  PrimFloat.leb (similarity_threshold low) (similarity_threshold high) = true ->
  retrieve low sys question max_chunks context_type = Ok hits_low ->
  retrieve high sys question max_chunks context_type = Ok hits_high ->
  (length hits_high <= length hits_low)%nat.
Proof.
  intros Ht. unfold retrieve_context, retrieve_context_with.
  destruct (hybrid _ _ _ _ _) as [fused|e]; simpl; [|done].
  intros [= <-] [= <-]. apply slice_to_mono.
  rewrite !filter_and_rank_length. by apply filter_leb_mono.
Qed.

(** X16.  Where hits come from: every hit that retrieval returns is one of
    the fused candidates of hybrid search whose fused score met the
    threshold, with the same chunk and label and with its score either
    unchanged or multiplied by 1.2. *)
Theorem hits_come_from_candidates (config : Config) (sys : RAGSystem Store)
    (question context_type : string) (max_chunks : Z) (hits : list SearchResult) :
  retrieve config sys question max_chunks context_type = Ok hits ->
  exists fused,
    hybrid (vector_store Store sys) question (max_chunks * 2) 0.7%float 0.3%float
      = Ok fused
    /\ forall h, In h hits ->
         exists r, In r fused
           /\ PrimFloat.leb (similarity_threshold config) (score r) = true
           /\ chunk h = chunk r
           /\ relevance_type h = relevance_type r
           /\ (score h = score r \/ score h = (score r * 1.2)%float).
Proof.
  unfold retrieve_context, retrieve_context_with.
  destruct (hybrid _ _ _ _ _) as [fused|e]; simpl; [|done].
  intros [= <-]. exists fused. split; [done|]. intros h Hh.
  apply slice_to_sublist in Hh. unfold filter_and_rank_results in Hh.
  apply list_elem_of_In in Hh. rewrite sorted_desc_perm in Hh.
  apply list_elem_of_In, in_map_iff in Hh as (r & <- & Hr).
  apply filter_In in Hr as [Hr Hthr]. exists r.
  split; [done|]. split; [done|]. apply boost_cases.
Qed.






End RetrievalProps.

Lemma StronglySorted_map_inv {A B} (f : A -> B) (R : B -> B -> Prop) (l : list A) :
  StronglySorted R (map f l) -> StronglySorted (fun a b => R (f a) (f b)) l.
Proof.
  induction l as [|x l IH]; simpl; intros H; [constructor|].
  apply StronglySorted_inv in H as [Hs Hall]. constructor; [by apply IH|].
  rewrite List.Forall_map in Hall. done.
Qed.

Lemma StronglySorted_weaken {A} (R R' : A -> A -> Prop) (Q : A -> Prop) (l : list A) :
  (forall a b, Q a -> Q b -> R a b -> R' a b) ->
  Forall Q l -> StronglySorted R l -> StronglySorted R' l.
Proof.
  intros Himp Hq Hs. induction Hs as [|x l Hs IH Hall]; [constructor|].
  apply Forall_cons in Hq as [Hx Hq]. constructor; [by apply IH|].
  rewrite Forall_forall in *. intros y Hy. apply Himp; auto.
Qed.

Section FusedOrder.
Variables semantic_weight keyword_weight : float.

Local Abbreviation sem_step := (add_semantic semantic_weight).
Local Abbreviation kw_step := (add_keyword keyword_weight).
Local Abbreviation fuse sem kw := (fuse_scores sem kw semantic_weight keyword_weight).
Local Abbreviation combine sem kw :=
  (combine_search_results sem kw semantic_weight keyword_weight).

Lemma mem_od_keys {V} (k : string) (d : odict V) :
  mem k (od_keys d) = true <-> is_Some (od_get k d).
Proof. by rewrite mem_In, od_get_is_Some, list_elem_of_In. Qed.

Lemma semantic_loop_keys (sem : list SearchResult) st :
  NoDup (ids sem) ->
  (forall k, k ∈ ids sem -> od_get k (fst st) = None) ->
  od_keys (fst (fold_left sem_step sem st)) = od_keys (fst st) ++ ids sem.
Proof.
  revert st. induction sem as [|s sem IH]; intros st Hnd Hfresh; simpl.
  - by rewrite app_nil_r.
  - apply NoDup_cons in Hnd as [Hs Hnd]. rewrite IH; [|done|].
    + simpl. rewrite od_keys_set_none by (apply Hfresh; by left).
      by rewrite <- app_assoc.
    + intros k Hk. simpl. rewrite od_get_set_ne.
      * apply Hfresh. by right.
      * intros Heq. by rewrite Heq in Hs.
Qed.

Lemma keyword_loop_keys (kw : list SearchResult) st :
  NoDup (ids kw) ->
  od_keys (fst (fold_left kw_step kw st))
  = od_keys (fst st)
    ++ List.filter (fun k => negb (mem k (od_keys (fst st)))) (ids kw).
Proof.
  revert st. induction kw as [|r kw IH]; intros st Hnd; simpl.
  - by rewrite app_nil_r.
  - apply NoDup_cons in Hnd as [Hr Hnd]. rewrite IH by done.
    unfold add_keyword at 1 2. destruct (od_get (id (chunk r)) (fst st)) eqn:Hget.
    + simpl. rewrite od_keys_set_some by (by eexists).
      assert (mem (id (chunk r)) (od_keys (fst st)) = true) as ->
        by (apply mem_od_keys; by eexists).
      done.
    + simpl. rewrite od_keys_set_none by done.
      assert (mem (id (chunk r)) (od_keys (fst st)) = false) as ->.
      { apply not_true_is_false. rewrite mem_od_keys, Hget. by intros [? ?]. }
      simpl. rewrite <- app_assoc. simpl. do 2 f_equal.
      apply filter_ext_in. intros k Hk. f_equal.
      apply eq_true_iff_eq. rewrite !mem_In, in_app_iff. simpl.
      split; [intros [?|[<-|[]]]; [done|]|by left].
      by apply list_elem_of_In in Hk.
Qed.

Lemma fuse_scores_keys (sem kw : list SearchResult) :
  NoDup (ids sem) -> NoDup (ids kw) ->
  od_keys (fst (fuse sem kw))
  = ids sem ++ List.filter (fun k => negb (mem k (ids sem))) (ids kw).
Proof.
  intros Hs Hk. unfold fuse_scores. rewrite keyword_loop_keys by done.
  by rewrite semantic_loop_keys.
Qed.

(** X18.  Order of the fused list: the list [combine_search_results]
    returns is in descending order of fused score, and among results with
    equal fused scores those found by the semantic search come first, in
    the order of the semantic results, followed by those found by the
    keyword search alone, in the order of the keyword results. *)
Theorem fused_results_order (sem kw : list SearchResult) :
  NoDup (ids sem) -> NoDup (ids kw) ->
  Forall (fun r => PrimFloat.is_nan (score r) = false) (combine sem kw) ->
  StronglySorted (fun a b => PrimFloat.ltb (score a) (score b) = false)
    (combine sem kw)
  /\ forall v,
       ids (List.filter (fun r => PrimFloat.eqb (score r) v) (combine sem kw))
       = List.filter
           (fun k => PrimFloat.eqb (score_of (fst (fuse sem kw)) k) v)
           (ids sem ++ List.filter (fun k => negb (mem k (ids sem))) (ids kw)).
Proof.
  intros Hs Hk Hnan.
  destruct (combine_search_results_spec semantic_weight keyword_weight sem kw)
    as [Hids Hout].
  set (out := combine sem kw) in *. set (cs := fst (fuse sem kw)) in *.
  assert (Forall (fun r => score r = score_of cs (id (chunk r))) out) as Hscore.
  { eapply List.Forall_impl; [|exact Hout]. intros r (result & _ & Hr).
    rewrite Hr at 1. done. }
  split.
  - apply (StronglySorted_weaken
      (fun a b => PrimFloat.ltb (score_of cs (id (chunk a)))
                    (score_of cs (id (chunk b))) = false) _
      (fun r => score r = score_of cs (id (chunk r)))); [|done|].
    { intros a b -> ->. done. }
    apply (StronglySorted_map_inv (fun r => id (chunk r))
             (fun x y => PrimFloat.ltb (score_of cs x) (score_of cs y) = false)).
    change (map (fun r => id (chunk r)) out) with (ids out). rewrite Hids.
    apply sorted_desc_sorted.
    apply Forall_forall. intros k Hkey.
    assert (k ∈ ids out) as Hin by (by rewrite Hids, sorted_desc_perm).
    apply list_elem_of_In, in_map_iff in Hin as (r & <- & Hr).
    rewrite Forall_forall in Hnan, Hscore.
    apply list_elem_of_In in Hr.
    rewrite <- (Hscore r Hr). by apply Hnan.
  - intros v. rewrite <- fuse_scores_keys by done. fold cs.
    rewrite <- (sorted_desc_stable (score_of cs)
                  (fun k => PrimFloat.eqb (score_of cs k) v) (od_keys cs))
      by (intros a b Ha Hb; by apply (eqb_tie _ _ v)).
    rewrite <- Hids. clear Hids Hout Hnan.
    induction Hscore as [|r l Hr _ IH]; simpl; [done|].
    rewrite <- Hr. destruct (PrimFloat.eqb (score r) v); simpl; by rewrite IH.
Qed.

End FusedOrder.

(** ** The response cache, the query path and indexing *)

Lemma string_app_assoc (a b c : string) : (a +:+ b) +:+ c = a +:+ b +:+ c.
Proof.
  induction a as [|x a IH]; [done|].
  change (String x ((a +:+ b) +:+ c) = String x (a +:+ b +:+ c)).
  by rewrite IH.
Qed.

Section CacheMore.
Variable config : Config.
Variable encode : string -> list Z.
Variable md5_hexdigest : string -> string.
Variable Store : Type.
Variable Embedding : Type.
Variable embed : string -> Result Embedding.
Variable index : IndexOps Store Embedding.
Variable keyword_search : Store -> string -> Z -> Result (list SearchResult).
Variable index_documents : Store -> list DocumentChunk -> Result Store.
Variable generate_response : string -> list SearchResult -> Result RAGResponse.

Local Abbreviation System := (RAGSystem Store).
Local Abbreviation key_for := (create_cache_key md5_hexdigest).
Local Abbreviation store_response := (cache_response Store).
Local Abbreviation lookup := (cache_lookup config Store).
Local Abbreviation sweep := (clean_cache config Store).
Local Abbreviation run_query :=
  (query config md5_hexdigest Store Embedding embed index keyword_search
     generate_response).
Local Abbreviation answer :=
  (answer_query config md5_hexdigest Store Embedding embed index keyword_search
     generate_response).
Local Abbreviation retrieve :=
  (retrieve_context config Store Embedding embed index keyword_search).
Local Abbreviation reindex :=
  (index_documentation config encode md5_hexdigest Store index_documents).
Local Abbreviation chunk_all := (process_directory config encode md5_hexdigest).

Lemma clean_cache_lookup (sys : System) (now : Z) (k : string) (item : CacheItem) :
  cache Store (sweep sys now) !! k = Some item <->
  cache Store sys !! k = Some item /\ is_cache_valid config item now = true.
Proof. unfold clean_cache. simpl. by rewrite map_lookup_filter_Some. Qed.

(** X19.  Sweeping expired entries: [clean_cache] keeps exactly the entries
    that are valid at the time of the sweep, each unchanged, so a lookup at
    that time returns what it returned before the sweep; the index and the
    metrics are not touched. *)
Theorem clean_cache_keeps_valid_entries (sys : System) (now : Z) :
  (forall k item,
     cache Store (sweep sys now) !! k = Some item <->
     cache Store sys !! k = Some item /\ is_cache_valid config item now = true)
  /\ (forall k, lookup (sweep sys now) k now = lookup sys k now)
  /\ vector_store Store (sweep sys now) = vector_store Store sys
  /\ metrics Store (sweep sys now) = metrics Store sys.
Proof.
  split; [apply clean_cache_lookup|]. split; [|done].
  intros k. unfold cache_lookup.
  destruct (cache Store (sweep sys now) !! k) as [item|] eqn:Hswept.
  - apply clean_cache_lookup in Hswept as [-> Hvalid]. done.
  - destruct (cache Store sys !! k) as [item|] eqn:Hbefore; [|done].
    destruct (is_cache_valid config item now) eqn:Hvalid; [|done].
    assert (cache Store (sweep sys now) !! k = Some item) as H
      by (by apply clean_cache_lookup).
    congruence.
Qed.

(** X20.  Cached answers survive a restart: when the cache file read at
    start-up holds the cache as [cache_response] left it after storing a
    response at time [T], and the system starts before [T + ttl], a query
    with the same question, context type and chunk count made before
    [T + ttl] is answered with that response and counts a cache hit;
    whatever the cache held before loading is gone, and every entry kept
    comes from the file and is valid at start-up.  A start at or after
    [T + ttl] drops the entry. *)
Theorem cached_answer_survives_restart (sys fresh : System)
    (question context_type : string) (max_chunks : Z) (r : RAGResponse)
    (T boot later now_store : Z) (elapsed : float) (stream : bool) :
  boot < T + timedelta_hours (cache_ttl_hours config) ->
  later < T + timedelta_hours (cache_ttl_hours config) ->
  let cache_key := create_cache_key md5_hexdigest question context_type max_chunks in
  let written := store_response sys cache_key r T in
  let restarted := load_cache config fresh (Some (Ok (cache Store written))) boot in
  run_query restarted question context_type max_chunks true stream
    later now_store elapsed
  = (Response r, add_cache_hit Store restarted)
  /\ (forall k item,
        cache Store restarted !! k = Some item ->
        cache Store written !! k = Some item
        /\ is_cache_valid config item boot = true)
  /\ (forall late,
        T + timedelta_hours (cache_ttl_hours config) <= late ->
        cache Store (load_cache config fresh (Some (Ok (cache Store written))) late)
          !! cache_key = None).
Proof.
  intros Hboot Hlater cache_key written restarted.
  assert (cache Store restarted !! cache_key
          = Some {| response := r; timestamp := T |}) as Hkept.
  { unfold restarted, load_cache. apply clean_cache_lookup. simpl.
    rewrite lookup_insert_eq. split; [done|].
    unfold is_cache_valid. simpl.
    destruct (Z.ltb_spec (boot - T) (timedelta_hours (cache_ttl_hours config)));
      [done|lia]. }
  split; [|split].
  - unfold query, cache_lookup. fold cache_key. rewrite Hkept.
    unfold is_cache_valid. simpl.
    destruct (Z.ltb_spec (later - T) (timedelta_hours (cache_ttl_hours config)));
      [done|lia].
  - intros k item Hk. unfold restarted, load_cache in Hk.
    by apply clean_cache_lookup in Hk.
  - intros late Hlate.
    destruct (cache Store (load_cache config fresh _ late) !! cache_key)
      as [item|] eqn:Hitem; [|done].
    unfold load_cache in Hitem. apply clean_cache_lookup in Hitem as [Hitem Hvalid].
    simpl in Hitem. unfold written, cache_response in Hitem. simpl in Hitem.
    rewrite lookup_insert_eq in Hitem. injection Hitem as <-.
    unfold is_cache_valid in Hvalid. simpl in Hvalid.
    destruct (Z.ltb_spec (late - T) (timedelta_hours (cache_ttl_hours config)));
      [lia|done].
Qed.

(** X21.  Cache round trip: when a query misses the cache and its answer
    is generated, a later query with the same question, context type and
    chunk count, made before the TTL has passed since the answer was
    stored, returns that same answer and counts a cache hit. *)
Theorem answered_query_is_cached (sys : System) (question context_type : string)
    (max_chunks : Z) (hits : list SearchResult) (generated : RAGResponse)
    (now now_store later later_store : Z) (elapsed later_elapsed : float)
    (stream : bool) :
  lookup sys (key_for question context_type max_chunks) now = None ->
  retrieve sys question max_chunks context_type = Ok hits ->
  generate_response question hits = Ok generated ->
  later < now_store + timedelta_hours (cache_ttl_hours config) ->
  fst (run_query sys question context_type max_chunks true false now now_store elapsed)
    = Response (set_response_time generated elapsed)
  /\ run_query
       (snd (run_query sys question context_type max_chunks true false
               now now_store elapsed))
       question context_type max_chunks true stream later later_store later_elapsed
     = (Response (set_response_time generated elapsed),
        add_cache_hit Store
          (snd (run_query sys question context_type max_chunks true false
                  now now_store elapsed))).
Proof.
  intros Hmiss Hret Hgen Hlater.
  unfold query at 1 3 4. rewrite Hmiss. unfold answer_query. rewrite Hret. simpl.
  rewrite Hgen. simpl. split; [done|].
  unfold query, cache_lookup. simpl. rewrite lookup_insert_eq. simpl.
  unfold is_cache_valid. simpl.
  destruct (Z.ltb_spec (later - now_store) (timedelta_hours (cache_ttl_hours config)));
    [done|lia].
Qed.

(** X22.  What a query writes: a query never changes the index; it leaves
    every cache entry under another key as it was; with [use_cache] off or
    with a streamed answer it leaves the whole cache as it was; and when it
    does change the cache, it stores the response it returns under its own
    key with the time of the write. *)
Theorem query_cache_writes (sys : System) (question context_type : string)
    (max_chunks : Z) (use_cache stream : bool) (now now_store : Z) (elapsed : float) :
  let out := run_query sys question context_type max_chunks use_cache stream
               now now_store elapsed in
  let cache_key := create_cache_key md5_hexdigest question context_type max_chunks in
  vector_store Store (snd out) = vector_store Store sys
  /\ (forall k, k <> cache_key -> cache Store (snd out) !! k = cache Store sys !! k)
  /\ (use_cache = false \/ stream = true -> cache Store (snd out) = cache Store sys)
  /\ (cache Store (snd out) = cache Store sys
      \/ exists r, fst out = Response r
           /\ cache Store (snd out)
              = <[cache_key := {| response := r; timestamp := now_store |}]>
                  (cache Store sys)).
Proof.
  intros out cache_key. unfold out, query.
  destruct (if use_cache then lookup sys _ now else None) as [r|].
  { simpl. repeat split; try done. by left. }
  unfold answer_query.
  destruct (retrieve sys question max_chunks context_type) as [hits|e]; simpl;
    [|repeat split; try done; by left].
  destruct stream; simpl; [repeat split; try done; by left|].
  destruct (generate_response question hits) as [g|e]; simpl;
    [|repeat split; try done; by left].
  destruct use_cache; simpl.
  - repeat split.
    + intros k Hk. by rewrite lookup_insert_ne.
    + by intros [?|?].
    + right. by eexists.
  - repeat split; try done. by left.
Qed.


(** X24.  Cache keys do not separate their parts: the key is computed from
    the question, the context type and the chunk count joined by bars, so
    a question and context type that join to the same text share a key
    whatever the digest; a response cached for one request is then served,
    within its TTL, for the other. *)
Theorem cache_key_collision (sys : System) (question middle context_type : string)
    (max_chunks : Z) (r : RAGResponse) (T now now_store : Z) (elapsed : float)
    (stream : bool) :
  now < T + timedelta_hours (cache_ttl_hours config) ->
  key_for (question +:+ "|" +:+ middle) context_type max_chunks
    = key_for question (middle +:+ "|" +:+ context_type) max_chunks
  /\ run_query
       (store_response sys
          (key_for (question +:+ "|" +:+ middle) context_type max_chunks) r T)
       question (middle +:+ "|" +:+ context_type) max_chunks true stream
       now now_store elapsed
     = (Response r,
        add_cache_hit Store
          (store_response sys
             (key_for (question +:+ "|" +:+ middle) context_type max_chunks) r T)).
Proof.
  intros Hnow.
  assert (key_for (question +:+ "|" +:+ middle) context_type max_chunks
          = key_for question (middle +:+ "|" +:+ context_type) max_chunks) as Hkey.
  { unfold create_cache_key. apply f_equal.
    rewrite (string_app_assoc question), (string_app_assoc middle). reflexivity. }
  split; [done|]. unfold query. rewrite <- Hkey.
  rewrite (cache_lookup_fresh config Store).
  destruct (Z.ltb_spec (now - T) (timedelta_hours (cache_ttl_hours config)));
    [done|lia].
Qed.

Lemma process_directory_app (before after : list (Result Document)) :
  chunk_all (before ++ after) = chunk_all before ++ chunk_all after.
Proof. unfold process_directory. apply flat_map_app. Qed.

(** X25.  A file that fails: a file that cannot be read or parsed adds no
    chunk and takes none away; the chunks of the files before and after it
    are produced as if it were not there, in the same order. *)
Theorem failing_file_is_skipped (before after : list (Result Document))
    (message : string) :
  chunk_all (before ++ Raise message :: after) = chunk_all (before ++ after).
Proof.
  rewrite !process_directory_app.
  change (Raise message :: after) with ([Raise message] ++ after).
  by rewrite process_directory_app.
Qed.

(** X26.  Indexing nothing: when no file yields a block (each one fails or
    is empty), [index_documentation] returns the system as it was and the
    vector store is not asked to index anything. *)
Theorem index_without_chunks (sys : System) (files : list (Result Document)) :
  Forall (fun file => match file with
                      | Ok doc => content_blocks doc = []
                      | Raise _ => True
                      end) files ->
  chunk_all files = [] /\ reindex sys files = Ok sys.
Proof.
  intros Hfiles.
  assert (chunk_all files = []) as Hnone.
  { induction Hfiles as [|file l Hfile _ IH]; [done|].
    change (file :: l) with ([file] ++ l).
    rewrite process_directory_app, IH, app_nil_r.
    unfold process_directory. simpl. rewrite app_nil_r.
    destruct file as [doc|]; [|done].
    unfold create_contextual_chunks. by rewrite Hfile. }
  split; [done|]. unfold index_documentation. by rewrite Hnone.
Qed.

End CacheMore.

(** ** The further properties at concrete inputs *)

Lemma code_block_is_tagged_witness :
  exists c,
    create_contextual_chunks (small_config 100 0) char_tokens plain_digest
      (doc_of [text_block "intro"; code_block "python" "x = 1"]) !! 0%nat = Some c
    /\ In "code" (content_types (metadata c)).
Proof.
  eexists. split; [reflexivity|].
  apply (code_block_is_tagged (small_config 100 0) char_tokens plain_digest
           (doc_of [text_block "intro"; code_block "python" "x = 1"]) 0 _
           [text_block "intro"; code_block "python" "x = 1"]
           (code_block "python" "x = 1")).
  - reflexivity.
  - reflexivity.
  - simpl. auto.
  - reflexivity.
Defined.

Lemma overlap_is_longest_witness :
  [text_block "bbbb"]
    `suffix_of` get_overlap_blocks (small_config 10 4) char_tokens
                  [text_block "aaaaaa"; text_block "bbbb"].
Proof.
  apply (overlap_is_longest (small_config 10 4) char_tokens
           [text_block "aaaaaa"; text_block "bbbb"] [text_block "bbbb"]).
  - exists [text_block "aaaaaa"]. reflexivity.
  - vm_compute. discriminate.
Defined.

Lemma last_chunk_section_witness :
  let doc := doc_of [heading_block 1 "Guide"; text_block "Welcome.";
                     heading_block 2 "Install"; text_block "Run it."] in
  exists c,
    last (create_contextual_chunks (small_config 12 0) char_tokens plain_digest doc)
      = Some c
    /\ section c = last_heading (content_blocks doc).
Proof.
  eexists. split; [reflexivity|].
  apply (last_chunk_section (small_config 12 0) char_tokens plain_digest
           (doc_of [heading_block 1 "Guide"; text_block "Welcome.";
                    heading_block 2 "Install"; text_block "Run it."])).
  reflexivity.
Defined.

Lemma chunks_ignore_block_sections_witness :
  let doc := doc_of [text_block "Welcome."; code_block "python" "x = 1"] in
  let moved := [in_section "Guide" (text_block "Welcome.");
                in_section "Install" (code_block "python" "x = 1")] in
  create_contextual_chunks (small_config 12 0) char_tokens plain_digest doc
  = create_contextual_chunks (small_config 12 0) char_tokens plain_digest
      (with_blocks doc moved).
Proof.
  apply (chunks_ignore_block_sections (small_config 12 0) char_tokens plain_digest
           (doc_of [text_block "Welcome."; code_block "python" "x = 1"])
           [in_section "Guide" (text_block "Welcome.");
            in_section "Install" (code_block "python" "x = 1")]).
  repeat constructor.
Defined.

Lemma undetected_language_fence_witness :
  map format_block (extract_structured_content [element Html.pre "x = 1"])
  = [PyStr.nl +:+ "```None" +:+ PyStr.nl +:+ text (element Html.pre "x = 1")
       +:+ PyStr.nl +:+ "```" +:+ PyStr.nl].
Proof.
  apply (undetected_language_fence (element Html.pre "x = 1")); reflexivity.
Defined.

Lemma extracted_sections_witness :
  exists b,
    extract_structured_content page !! 3%nat = Some b
    /\ b_section b = last_heading (take 4 (extract_structured_content page)).
Proof.
  eexists. split; [reflexivity|].
  apply (extracted_sections page 3). reflexivity.
Defined.

Lemma extracted_section_agrees_witness :
  let doc := doc_of (extract_structured_content page) in
  exists b c,
    last (content_blocks doc) = Some b
    /\ last (create_contextual_chunks (small_config 12 0) char_tokens plain_digest doc)
       = Some c
    /\ section c = b_section b.
Proof.
  eexists. eexists. split; [reflexivity|]. split; [reflexivity|].
  apply (extracted_section_agrees (small_config 12 0) char_tokens plain_digest
           (doc_of (extract_structured_content page)) page); reflexivity.
Defined.

Lemma retrieval_size_bounds_witness :
  let found := [hit "a" 0.9%float [] "semantic"; hit "b" 0.8%float [] "semantic";
                hit "c" 0.2%float [] "semantic"] in
  exists hits,
    retrieve_context CONFIG unit unit embed_ok (fixed_index found)
      (fixed_keywords found) empty_system "what is a tenant" 1 "general" = Ok hits
    /\ Z.of_nat (length hits) <= 1
    /\ exists fused,
         hybrid_search unit unit embed_ok (fixed_index found)
           (fixed_keywords found) (vector_store unit empty_system)
           "what is a tenant" (1 * 2) 0.7%float 0.3%float = Ok fused
         /\ Z.of_nat (length fused) <= 2 * 1
         /\ (length hits <= length fused)%nat.
Proof.
  eexists. split; [reflexivity|].
  apply (retrieval_size_bounds unit unit embed_ok
           (fixed_index [hit "a" 0.9%float [] "semantic";
                              hit "b" 0.8%float [] "semantic";
                              hit "c" 0.2%float [] "semantic"])
           (fixed_keywords [hit "a" 0.9%float [] "semantic";
                            hit "b" 0.8%float [] "semantic";
                            hit "c" 0.2%float [] "semantic"])
           CONFIG empty_system "what is a tenant" "general" 1).
  - lia.
  - reflexivity.
Defined.

Lemma threshold_monotone_witness :
  let found := [hit "a" 0.9%float [] "semantic"; hit "b" 0.6%float [] "semantic"] in
  exists hits_low hits_high,
    retrieve_context (with_threshold 0.4%float) unit unit embed_ok
      (fixed_index found) (fixed_keywords []) empty_system
      "what is a tenant" 5 "general" = Ok hits_low
    /\ retrieve_context (with_threshold 0.6%float) unit unit embed_ok
         (fixed_index found) (fixed_keywords []) empty_system
         "what is a tenant" 5 "general" = Ok hits_high
    /\ (length hits_high <= length hits_low)%nat.
Proof.
  eexists. eexists. split; [reflexivity|]. split; [reflexivity|].
  apply (threshold_monotone unit unit embed_ok
           (fixed_index [hit "a" 0.9%float [] "semantic";
                              hit "b" 0.6%float [] "semantic"])
           (fixed_keywords [])
           (with_threshold 0.4%float) (with_threshold 0.6%float)
           empty_system "what is a tenant" "general" 5).
  - reflexivity.
  - reflexivity.
  - reflexivity.
Defined.

Lemma hits_come_from_candidates_witness :
  let found := [hit "a" 1%float ["api"] "semantic"; hit "b" 0.5%float [] "semantic"] in
  let matched := [hit "a" 1%float ["api"] "keyword"] in
  exists hits,
    retrieve_context CONFIG unit unit embed_ok (fixed_index found)
      (fixed_keywords matched) empty_system "which endpoint lists users" 5 "auto"
    = Ok hits
    /\ exists fused,
         hybrid_search unit unit embed_ok (fixed_index found)
           (fixed_keywords matched) (vector_store unit empty_system)
           "which endpoint lists users" (5 * 2) 0.7%float 0.3%float = Ok fused
         /\ forall h, In h hits ->
              exists r, In r fused
                /\ PrimFloat.leb (similarity_threshold CONFIG) (score r) = true
                /\ chunk h = chunk r
                /\ relevance_type h = relevance_type r
                /\ (score h = score r \/ score h = (score r * 1.2)%float).
Proof.
  eexists. split; [reflexivity|].
  apply (hits_come_from_candidates unit unit embed_ok
           (fixed_index [hit "a" 1%float ["api"] "semantic";
                              hit "b" 0.5%float [] "semantic"])
           (fixed_keywords [hit "a" 1%float ["api"] "keyword"])
           CONFIG empty_system "which endpoint lists users" "auto" 5).
  reflexivity.
Defined.


(** The score lookup of [search] at work.  Three chunks are stored; the
    index search ranks the second one first.  The rows come back in
    storage order, and each takes the score found beside its own position
    among the candidate ids: the first chunk is returned with the
    similarity of the second, and the second with that of the first. *)
Example search_pairs_scores_by_position :
  let stored := [hit "c0" 0%float [] "semantic"; hit "c1" 0%float [] "semantic";
                 hit "c2" 0%float [] "semantic"] in
  search unit unit embed_ok (index_with [(0.9%float, 1); (0.8%float, 0)] stored)
    tt "list users" 2 None
  = Ok [hit "c0" 0.9%float [] "semantic"; hit "c1" 0.8%float [] "semantic"].
Proof. vm_compute. reflexivity. Qed.

(** When the index search returns a row number that is no position among
    the candidate ids, the lookup raises. *)
Example search_raises_on_other_row_numbers :
  let stored := [hit "c0" 0%float [] "semantic"; hit "c1" 0%float [] "semantic";
                 hit "c2" 0%float [] "semantic"] in
  search unit unit embed_ok (index_with [(0.9%float, 2)] stored) tt "list users" 1 None
  = Raise "0 is not in list".
Proof. vm_compute. reflexivity. Qed.

Lemma fused_results_order_witness :
  let sem := [hit "a" 0.5%float [] "semantic"; hit "b" 0.9%float [] "semantic"] in
  let kw := [hit "c" 2%float [] "keyword"; hit "b" 0.1%float [] "keyword"] in
  StronglySorted (fun a b => PrimFloat.ltb (score a) (score b) = false)
    (combine_search_results sem kw 0.7%float 0.3%float)
  /\ forall v,
       ids (List.filter (fun r => PrimFloat.eqb (score r) v)
              (combine_search_results sem kw 0.7%float 0.3%float))
       = List.filter
           (fun k => PrimFloat.eqb
                       (score_of (fst (fuse_scores sem kw 0.7%float 0.3%float)) k) v)
           (ids sem ++ List.filter (fun k => negb (mem k (ids sem))) (ids kw)).
Proof.
  apply (fused_results_order 0.7%float 0.3%float
           [hit "a" 0.5%float [] "semantic"; hit "b" 0.9%float [] "semantic"]
           [hit "c" 2%float [] "keyword"; hit "b" 0.1%float [] "keyword"]).
  - apply (bool_decide_unpack _). vm_compute. reflexivity.
  - apply (bool_decide_unpack _). vm_compute. reflexivity.
  - repeat constructor.
Defined.

Lemma answered_query_is_cached_witness :
  let first :=
    query CONFIG plain_digest unit unit embed_ok (fixed_index [])
      (fixed_keywords []) generate_plain empty_system
      "how to log in" "general" 5 true false 0 one_hour 2%float in
  let generated :=
    {| query_text := "how to log in"; answer := "generated"; sources := [];
       confidence := 1%float; response_time := 0%float; tokens_used := 0 |} in
  fst first = Response (set_response_time generated 2%float)
  /\ query CONFIG plain_digest unit unit embed_ok (fixed_index [])
       (fixed_keywords []) generate_plain (snd first)
       "how to log in" "general" 5 true true one_day 0 0%float
     = (Response (set_response_time generated 2%float),
        add_cache_hit unit (snd first)).
Proof.
  apply (answered_query_is_cached CONFIG plain_digest unit unit embed_ok
           (fixed_index []) (fixed_keywords []) generate_plain empty_system
           "how to log in" "general" 5 []
           {| query_text := "how to log in"; answer := "generated"; sources := [];
              confidence := 1%float; response_time := 0%float; tokens_used := 0 |}
           0 one_hour one_day 0 2%float 0%float true).
  - reflexivity.
  - reflexivity.
  - reflexivity.
  - vm_compute. reflexivity.
Defined.

Lemma cached_answer_survives_restart_witness :
  let cache_key := create_cache_key plain_digest "how to log in" "general" 5 in
  let written := cache_response unit empty_system cache_key stored_response 0 in
  let restarted :=
    load_cache CONFIG empty_system (Some (Ok (cache unit written))) one_hour in
  query CONFIG plain_digest unit unit embed_down (fixed_index []) (fixed_keywords [])
    generate_plain restarted "how to log in" "general" 5 true false
    (2 * one_hour) (2 * one_hour) 0%float
  = (Response stored_response, add_cache_hit unit restarted)
  /\ (forall k item,
        cache unit restarted !! k = Some item ->
        cache unit written !! k = Some item
        /\ is_cache_valid CONFIG item one_hour = true)
  /\ (forall late,
        0 + timedelta_hours (cache_ttl_hours CONFIG) <= late ->
        cache unit (load_cache CONFIG empty_system (Some (Ok (cache unit written))) late)
          !! cache_key = None).
Proof.
  apply (cached_answer_survives_restart CONFIG plain_digest unit unit embed_down
           (fixed_index []) (fixed_keywords []) generate_plain
           empty_system empty_system "how to log in" "general" 5 stored_response
           0 one_hour (2 * one_hour) (2 * one_hour) 0%float false).
  - vm_compute. reflexivity.
  - vm_compute. reflexivity.
Defined.

Lemma cache_key_collision_witness :
  let stored :=
    cache_response unit empty_system
      (create_cache_key plain_digest ("reset" +:+ "|" +:+ "password") "api" 5)
      stored_response 0 in
  create_cache_key plain_digest ("reset" +:+ "|" +:+ "password") "api" 5
    = create_cache_key plain_digest "reset" ("password" +:+ "|" +:+ "api") 5
  /\ query CONFIG plain_digest unit unit embed_ok (fixed_index [])
       (fixed_keywords []) generate_plain stored
       "reset" ("password" +:+ "|" +:+ "api") 5 true false one_hour one_hour 0%float
     = (Response stored_response, add_cache_hit unit stored).
Proof.
  apply (cache_key_collision CONFIG plain_digest unit unit embed_ok
           (fixed_index []) (fixed_keywords []) generate_plain empty_system
           "reset" "password" "api" 5 stored_response 0 one_hour one_hour
           0%float false).
  vm_compute. reflexivity.
Defined.

Lemma index_without_chunks_witness :
  let files := [Raise "cannot decode docs/broken.md"; Ok (doc_of [])] in
  process_directory (small_config 10 4) char_tokens plain_digest files = []
  /\ index_documentation (small_config 10 4) char_tokens plain_digest unit
       (fun _ _ => Raise "index unavailable") empty_system files
     = Ok empty_system.
Proof.
  apply (index_without_chunks (small_config 10 4) char_tokens plain_digest unit
           (fun _ _ => Raise "index unavailable") empty_system
           [Raise "cannot decode docs/broken.md"; Ok (doc_of [])]).
  repeat constructor.
Defined.
